(** * udock: a simplified Docker API, embedded and verified

    The development follows [udock.go].  The functions of the package are
    written in a small state monad over a [World]: a logical clock (in
    milliseconds), the state of the Docker daemon behind the client, and the
    trace of requests the package has sent so far.  The Docker client, the
    port parser of [go-connections/nat], the iteration order of Go maps and
    the pseudo-random choice of [select] are collaborators the package does
    not define; they are variables of the sections below. *)

From stdpp Require Import base option list strings pretty gmap fin_maps.
From Stdlib Require Import Ascii NArith Lia.

Local Open Scope string_scope.
Local Open Scope list_scope.
Local Open Scope N_scope.

(** ** Durations and the timeouts of the package *)

(** [time.Duration], counted in milliseconds. *)
Abbreviation Duration := N.

Definition Millisecond : Duration := 1.
Definition Second : Duration := 1000.

Definition dockerConnectTimeout : Duration := 10 * Second.
Definition dockerImageVerifyTimeout : Duration := 10 * Second.
Definition dockerPullTimeout : Duration := 60 * Second.
Definition dockerCreateContainerTimeout : Duration := 10 * Second.
Definition dockerStartContainerTimeout : Duration := 10 * Second.
Definition dockerRemoveContainerTimeout : Duration := 10 * Second.
Definition dockerRemoveImageTimeout : Duration := 10 * Second.

(** ** Errors *)

(** The package-level error values made with [errors.New].  Each is a
    distinct pointer; [errors.Is] recognises them by identity. *)
Inductive Sentinel : Type :=
| ErrCreatingDockerClient
| ErrConnectingToDocker
| ErrListingImages
| ErrImageNotPresent
| ErrReadingPulledImage
| ErrPullingImage
| ErrCreatingContainer
| ErrStartingContainer
| ErrTimeout
| ErrPortMap.

#[global] Instance Sentinel_eq_dec : EqDecision Sentinel.
Proof. solve_decision. Defined.

Definition sentinel_text (s : Sentinel) : string :=
  match s with
  | ErrCreatingDockerClient => "error creating docker client"
  | ErrConnectingToDocker => "error connecting to docker"
  | ErrListingImages => "error listing docker images"
  | ErrImageNotPresent => "docker image is not present"
  | ErrReadingPulledImage => "error reading image during pull"
  | ErrPullingImage => "error pulling image"
  | ErrCreatingContainer => "error creating container"
  | ErrStartingContainer => "error starting container"
  | ErrTimeout => "operation timed out"
  | ErrPortMap => "portmap error"
  end.

(** An error that comes from outside the package (the Docker client, the
    port parser, a stream): it is identified by its message and is never one
    of the package's own values. *)
Definition Foreign : Type := string.

(** Go [error] values as the package builds them:
    [New s] is a package variable, [Cause f] an error received from a
    collaborator, [Errorf_w e a] is [fmt.Errorf("%w: %s", e, a)] and
    [Joined es] the result of [errors.Join] on the non-nil errors [es]. *)
#[warnings="-register-all"]
Inductive error : Type :=
| New (s : Sentinel)
| Cause (f : Foreign)
| Errorf_w (wrapped : error) (arg : string)
| Joined (errs : list error).

(** A Go value of type [error]: [None] is [nil]. *)
Abbreviation nil_error := (@None error).

(** [errors.Join]: nil arguments are dropped, and the result is nil when
    nothing is left. *)
Definition errors_Join (errs : list (option error)) : option error :=
  match omap id errs with
  | [] => None
  | es => Some (Joined es)
  end.

(** [errors.Is err target] for a package variable [target]: the tree of
    [Unwrap] is searched depth first. *)
Fixpoint errors_Is (err : error) (target : Sentinel) : bool :=
  match err with
  | New s => bool_decide (s = target)
  | Cause _ => false
  | Errorf_w wrapped _ => errors_Is wrapped target
  | Joined errs => existsb (fun e => errors_Is e target) errs
  end.

(** [err.Error()]. *)
Fixpoint Error (err : error) : string :=
  match err with
  | New s => sentinel_text s
  | Cause f => f
  | Errorf_w wrapped arg => Error wrapped +:+ ": " +:+ arg
  | Joined errs =>
      (fix lines (es : list error) : string :=
         match es with
         | [] => ""
         | [e] => Error e
         | e :: rest => Error e +:+ String (Ascii.ascii_of_nat 10) (lines rest)
         end) errs
  end.

(** ** Values exchanged with the Docker client *)

(** [context.WithTimeout(context.Background(), d)] called at time
    [created]: the context is done from [created + timeout] on. *)
Record Context : Type := { created : N; timeout : Duration }.

Definition Deadline (ctx : Context) : N := created ctx + timeout ctx.

Definition ctx_done (ctx : Context) (t : N) : bool := Deadline ctx <=? t.

(** [image.Summary]: only the number of summaries matters to the package. *)
Record ImageSummary : Type := { ImageID : string }.

Record PullOptions : Type := { All : bool }.

(** The body returned by [ImagePull], as the sequence of what successive
    [Read] calls deliver: data, then [io.EOF] or a failure. *)
Inductive ReadCloser : Type :=
| AtEOF
| Broken (cause : Foreign)
| Data (chunk : list Byte.byte) (rest : ReadCloser).

(** [nat.Port] is a string such as ["80/tcp"]. *)
Definition Port : Type := string.

Record PortBinding : Type := { HostIP : string; HostPort : string }.

Record Config : Type := { Image : string; Tty : bool }.

Record HostConfig : Type :=
  { PortBindings : gmap string (list PortBinding); AutoRemove : bool }.

Record CreateResponse : Type := { ID : string }.

Record StartOptions : Type := { CheckpointID : string; CheckpointDir : string }.

Record ContainerState : Type := { Running : bool }.

Record InspectResponse : Type := { State : ContainerState }.

Record RemoveOptions : Type := { RemoveVolumes : bool; Force : bool }.

(** [image.RemoveOptions]; its [Force] is [ImageForce] here. *)
Record ImageRemoveOptions : Type := { ImageForce : bool; PruneChildren : bool }.

(** ** The trace *)

Inductive Call : Type :=
| CallPing
| CallImageList (reference : string)
| CallImagePull (ref : string) (options : PullOptions)
| CallContainerCreate (config : Config) (hostConfig : HostConfig)
    (networkingConfig platform : option unit) (containerName : string)
| CallContainerStart (containerID : string) (options : StartOptions)
| CallContainerInspect (containerID : string)
| CallContainerRemove (containerID : string) (options : RemoveOptions)
| CallImageRemove (imageID : string) (options : ImageRemoveOptions).

(** What a [Read] on a pulled stream delivered. *)
Inductive ReadResult : Type :=
| ReadBytes (chunk : list Byte.byte)
| ReadEOF
| ReadFailed (cause : Foreign).

(** One interaction with the outside: a request sent to the daemon under a
    context at a time, with the error it came back with, or one [Read] on a
    stream. *)
Inductive Event : Type :=
| Request (call : Call) (ctx : Context) (sent : N) (failure : option Foreign)
| Read (result : ReadResult).

Definition is_pull (ev : Event) : bool :=
  match ev with Request (CallImagePull _ _) _ _ _ => true | _ => false end.

Definition is_create (ev : Event) : bool :=
  match ev with Request (CallContainerCreate _ _ _ _ _) _ _ _ => true | _ => false end.

Definition is_inspect (ev : Event) : bool :=
  match ev with Request (CallContainerInspect _) _ _ _ => true | _ => false end.

(** The context a request was sent under. *)
Definition event_ctx (ev : Event) : option Context :=
  match ev with Request _ ctx _ _ => Some ctx | Read _ => None end.

(** The bytes delivered by the reads of a trace. *)
Fixpoint bytes_read (evs : list Event) : list Byte.byte :=
  match evs with
  | [] => []
  | Read (ReadBytes chunk) :: rest => chunk ++ bytes_read rest
  | _ :: rest => bytes_read rest
  end.

(** All the bytes a stream holds. *)
Fixpoint payload (body : ReadCloser) : list Byte.byte :=
  match body with
  | Data chunk rest => chunk ++ payload rest
  | _ => []
  end.

Section Udock.

(** The state of the Docker daemon, as far as the client depends on it. *)
Variable D : Type.

(** What a request returns: its result or its error, the time it took, and
    the daemon's state afterwards. *)
Record Reply (A : Type) : Type :=
  { result : A + Foreign; took : Duration; after : D }.
Arguments result {A} _.
Arguments took {A} _.
Arguments after {A} _.

(** The methods of [*client.Client] the package calls.  Each receives the
    context, the time of the call, its arguments and the daemon's state. *)
Record Client : Type := {
  NewClientWithOpts : D → option Foreign;
  Ping : Context → N → D → Reply unit;
  ImageList : Context → N → string → D → Reply (list ImageSummary);
  ImagePull : Context → N → string → PullOptions → D → Reply ReadCloser;
  ContainerCreate : Context → N → Config → HostConfig → option unit →
                    option unit → string → D → Reply CreateResponse;
  ContainerStart : Context → N → string → StartOptions → D → Reply unit;
  ContainerInspect : Context → N → string → D → Reply InspectResponse;
  ContainerRemove : Context → N → string → RemoveOptions → D → Reply unit;
  ImageRemove : Context → N → string → ImageRemoveOptions → D → Reply unit;
}.

(** ** The world and its monad *)

Record World : Type := {
  now : N;                (* the clock, in milliseconds *)
  daemon : D;             (* the Docker daemon *)
  trace : list Event;     (* requests and reads so far, oldest first *)
  flips : nat;            (* random choices [select] has made so far *)
}.

Definition M (A : Type) : Type := World → A * World.

Definition ret {A} (a : A) : M A := fun w => (a, w).

Definition bind {A B} (m : M A) (k : A → M B) : M B :=
  fun w => let (a, w') := m w in k a w'.

Notation "'let*' x ':=' m 'in' k" := (bind m (fun x => k))
  (at level 10, x pattern, m at level 100, k at level 200, only parsing).

(** [context.WithTimeout(context.Background(), d)]. *)
Definition WithTimeout (d : Duration) : M Context :=
  fun w => ({| created := now w; timeout := d |}, w).

(** Sends a request: the daemon answers, the clock advances by the time
    the answer took, and the request is appended to the trace. *)
Definition request {A} (call : Call) (ctx : Context)
    (serve : Context → N → D → Reply A) : M (A + Foreign) :=
  fun w =>
    let r := serve ctx (now w) (daemon w) in
    let failure := match result r with inl _ => None | inr e => Some e end in
    (result r,
     {| now := now w + took r;
        daemon := after r;
        trace := trace w ++ [Request call ctx (now w) failure];
        flips := flips w |}).

(** One [Read] on a stream, recorded in the trace. *)
Definition record_read (r : ReadResult) : M unit :=
  fun w =>
    (tt, {| now := now w; daemon := daemon w;
            trace := trace w ++ [Read r]; flips := flips w |}).

(** [io.Copy(io.Discard, src)]: reads until [io.EOF] (success) or until a
    read fails; returns the number of bytes copied and the error. *)
Fixpoint io_Copy_Discard (src : ReadCloser) (written : N) : M (N * option Foreign) :=
  match src with
  | AtEOF => let* _ := record_read ReadEOF in ret (written, None)
  | Broken cause => let* _ := record_read (ReadFailed cause) in ret (written, Some cause)
  | Data chunk rest =>
      let* _ := record_read (ReadBytes chunk) in
      io_Copy_Discard rest (written + N.of_nat (length chunk))
  end.

Variable client : Client.

(** ** The package *)

(** [CreateClient]: returns whether a client was obtained, and the error. *)
Definition CreateClient : M (bool * option error) :=
  fun w =>
    match NewClientWithOpts client (daemon w) with
    | Some err => ((false, errors_Join [Some (New ErrCreatingDockerClient); Some (Cause err)]), w)
    | None =>
        (let* ctx := WithTimeout dockerConnectTimeout in
         let* pong := request CallPing ctx (Ping client) in
         match pong with
         | inr err => ret (false, errors_Join [Some (New ErrConnectingToDocker); Some (Cause err)])
         | inl _ => ret (true, nil_error)
         end) w
    end.

Definition VerifyHaveImage (dockerImage : string) : M (option error) :=
  let* ctx := WithTimeout dockerImageVerifyTimeout in
  let* listed := request (CallImageList dockerImage) ctx
                   (fun c t => ImageList client c t dockerImage) in
  match listed with
  | inr err => ret (errors_Join [Some (New ErrListingImages); Some (Cause err)])
  | inl images =>
      if 0 <? N.of_nat (length images) then ret nil_error
      else ret (Some (Errorf_w (New ErrImageNotPresent) dockerImage))
  end.

Definition PullImage (dockerImage : string) : M (option error) :=
  let* err := VerifyHaveImage dockerImage in
  match err with
  | None => ret nil_error
  | Some _ =>
      let* ctx := WithTimeout dockerPullTimeout in
      let options := {| All := false |} in
      let* pulled := request (CallImagePull dockerImage options) ctx
                       (fun c t => ImagePull client c t dockerImage options) in
      match pulled with
      | inr err =>
          ret (errors_Join [Some (Errorf_w (New ErrPullingImage) dockerImage);
                            Some (Cause err)])
      | inl image =>
          let* copied := io_Copy_Discard image 0 in
          match snd copied with
          | Some err => ret (errors_Join [Some (New ErrReadingPulledImage); Some (Cause err)])
          | None => ret nil_error
          end
      end
  end.

(** [nat.NewPort proto port] of go-connections: the port token, or the
    parse error. *)
Variable NewPort : string → string → Port + Foreign.

(** The order in which [range] visits a map: every entry once, in an order
    the language leaves open. *)
Variable range_order : gmap string string → list (string * string).

(** The body of the loop over [ports], run on the entries in the order they
    are visited: the first port that does not parse ends the loop with its
    error, otherwise the binding is stored under the container port. *)
Fixpoint range_ports (entries : list (string * string))
    (portmap : gmap string (list PortBinding))
    : gmap string (list PortBinding) + Foreign :=
  match entries with
  | [] => inl portmap
  | (hPort, cPort) :: rest =>
      match NewPort "tcp" cPort with
      | inr err => inr err
      | inl containerPort =>
          range_ports rest
            (<[containerPort := [{| HostIP := "0.0.0.0"; HostPort := hPort |}]]> portmap)
      end
  end.

Definition CreateContainer (dockerImage containerName : string)
    (ports : gmap string string) : M (string * option error) :=
  let containerConfig := {| Image := dockerImage; Tty := false |} in
  match range_ports (range_order ports) ∅ with
  | inr err => ret ("", errors_Join [Some (New ErrPortMap); Some (Cause err)])
  | inl portmap =>
      let containerHostConfig := {| PortBindings := portmap; AutoRemove := true |} in
      let* ctx := WithTimeout dockerCreateContainerTimeout in
      let* made := request
          (CallContainerCreate containerConfig containerHostConfig None None containerName)
          ctx
          (fun c t => ContainerCreate client c t containerConfig containerHostConfig
                        None None containerName) in
      match made with
      | inr err => ret ("", errors_Join [Some (New ErrCreatingContainer); Some (Cause err)])
      | inl container => ret (ID container, nil_error)
      end
  end.

(** ** Tickers and [select] *)

(** A [time.Ticker]: its channel holds at most one tick; the runtime sends
    a tick every [period] and drops it when the channel is full.  The
    record is brought up to date when the channel is looked at. *)
Record Ticker : Type := {
  period : Duration;
  next_fire : N;     (* when the runtime sends next *)
  pending : bool;    (* a tick waits in the channel *)
}.

Definition NewTicker (d : Duration) : M Ticker :=
  fun w => ({| period := d; next_fire := now w + d; pending := false |}, w).

(** The ticker as it stands at time [t]: when a send was due, the channel
    is full and the next send is the first one after [t]. *)
Definition observe (t : N) (tk : Ticker) : Ticker :=
  if next_fire tk <=? t then
    {| period := period tk;
       next_fire := next_fire tk + period tk * ((t - next_fire tk) / period tk + 1);
       pending := true |}
  else tk.

Definition receive (tk : Ticker) : Ticker :=
  {| period := period tk; next_fire := next_fire tk; pending := false |}.

Inductive Selected : Type := Tick | Done.

(** The pseudo-random choice [select] makes when several cases are ready:
    [true] picks [ctx.Done()]. *)
Variable fastrand : nat → bool.

(** [select { case <-ticker.C: ... case <-ctx.Done(): ... }]: when no case
    is ready the goroutine sleeps until the earlier of the next tick and the
    deadline; when both are ready one is chosen at random. *)
Definition select (ticker : Ticker) (ctx : Context) : M (Selected * Ticker) :=
  fun w =>
    let tk := observe (now w) ticker in
    let wake :=
      if pending tk || ctx_done ctx (now w) then now w
      else N.min (next_fire tk) (Deadline ctx) in
    let tk' := observe wake tk in
    let at_wake f :=
      {| now := wake; daemon := daemon w; trace := trace w; flips := f |} in
    if pending tk' && ctx_done ctx wake then
      if fastrand (flips w) then (Done, tk', at_wake (S (flips w)))
      else (Tick, receive tk', at_wake (S (flips w)))
    else if pending tk' then (Tick, receive tk', at_wake (flips w))
    else (Done, tk', at_wake (flips w)).

(** The [for] loop of [StartContainer]; [fuel] bounds the number of
    iterations, and [None] says the bound was reached. *)
Fixpoint poll (fuel : nat) (ctx : Context) (containerID : string)
    (ticker : Ticker) : M (option (option error)) :=
  match fuel with
  | O => ret None
  | S fuel' =>
      let* chosen := select ticker ctx in
      match chosen with
      | (Tick, ticker') =>
          let* inspected := request (CallContainerInspect containerID) ctx
                              (fun c t => ContainerInspect client c t containerID) in
          match inspected with
          | inr err =>
              ret (Some (errors_Join
                           [Some (Errorf_w (New ErrStartingContainer) containerID);
                            Some (Cause err)]))
          | inl state =>
              if Running (State state) then ret (Some nil_error)
              else poll fuel' ctx containerID ticker'
          end
      | (Done, _) => ret (Some (Some (New ErrTimeout)))
      end
  end.

Definition StartContainer (fuel : nat) (containerID : string)
    : M (option (option error)) :=
  let* ctx := WithTimeout dockerStartContainerTimeout in
  let options := {| CheckpointID := ""; CheckpointDir := "" |} in
  let* started := request (CallContainerStart containerID options) ctx
                    (fun c t => ContainerStart client c t containerID options) in
  match started with
  | inr err =>
      ret (Some (errors_Join
                   [Some (Errorf_w (New ErrStartingContainer) containerID);
                    Some (Cause err)]))
  | inl _ =>
      let* ticker := NewTicker (100 * Millisecond) in
      poll fuel ctx containerID ticker
  end.

Definition RemoveContainer (containerID : string) : M (option error) :=
  let* ctx := WithTimeout dockerRemoveContainerTimeout in
  let options := {| RemoveVolumes := true; Force := true |} in
  let* removed := request (CallContainerRemove containerID options) ctx
                    (fun c t => ContainerRemove client c t containerID options) in
  match removed with
  | inr err => ret (Some (Cause err))
  | inl _ => ret nil_error
  end.

Definition RemoveImage (dockerImage : string) : M (option error) :=
  let* ctx := WithTimeout dockerRemoveImageTimeout in
  let options := {| ImageForce := false; PruneChildren := false |} in
  let* removed := request (CallImageRemove dockerImage options) ctx
                    (fun c t => ImageRemove client c t dockerImage options) in
  match removed with
  | inr err => ret (Some (Cause err))
  | inl _ => ret nil_error
  end.

End Udock.

Arguments result {D A} _.
Arguments took {D A} _.
Arguments after {D A} _.
Arguments NewClientWithOpts {D} _ _.
Arguments Ping {D} _ _ _ _.
Arguments ImageList {D} _ _ _ _ _.
Arguments ImagePull {D} _ _ _ _ _ _.
Arguments ContainerCreate {D} _ _ _ _ _ _ _ _ _.
Arguments ContainerStart {D} _ _ _ _ _ _.
Arguments ContainerInspect {D} _ _ _ _ _.
Arguments ContainerRemove {D} _ _ _ _ _ _.
Arguments ImageRemove {D} _ _ _ _ _ _.
Arguments now {D} _.
Arguments daemon {D} _.
Arguments trace {D} _.
Arguments flips {D} _.
Arguments ret {D A} _ _.
Arguments bind {D A B} _ _ _.
Arguments WithTimeout {D} _ _.
Arguments request {D A} _ _ _ _.
Arguments record_read {D} _ _.
Arguments io_Copy_Discard {D} _ _ _.
Arguments CreateClient {D} _ _.
Arguments VerifyHaveImage {D} _ _ _.
Arguments PullImage {D} _ _ _.
Arguments CreateContainer {D} _ _ _ _ _ _ _.
Arguments NewTicker {D} _ _.
Arguments select {D} _ _ _ _.
Arguments poll {D} _ _ _ _ _ _ _.
Arguments StartContainer {D} _ _ _ _ _.
Arguments RemoveContainer {D} _ _ _.
Arguments RemoveImage {D} _ _ _.

(** How a stream ends: [None] for [io.EOF], or the failure of the last
    read. *)
Fixpoint ending (body : ReadCloser) : option Foreign :=
  match body with
  | AtEOF => None
  | Broken cause => Some cause
  | Data _ rest => ending rest
  end.

Definition final_read (body : ReadCloser) : ReadResult :=
  match ending body with
  | None => ReadEOF
  | Some cause => ReadFailed cause
  end.

(** ** A port parser and a scripted client, to run the package *)

Module Fixtures.

(** A model of [nat.NewPort] of go-connections: the port is a decimal
    number of at most 16 bits or a range [lo-hi] of such numbers; the empty
    string stands for port 0. *)
Definition digit (c : Ascii.ascii) : option N :=
  let n := Ascii.N_of_ascii c in
  if (48 <=? n) && (n <=? 57) then Some (n - 48) else None.

Fixpoint digits (s : string) (acc : N) : option N :=
  match s with
  | EmptyString => Some acc
  | String c rest =>
      match digit c with
      | Some d => digits rest (10 * acc + d)
      | None => None
      end
  end.

Definition ParseUint16 (s : string) : N + Foreign :=
  match s with
  | EmptyString => inr ("strconv.ParseUint: parsing " +:+ s +:+ ": invalid syntax")
  | _ =>
      match digits s 0 with
      | None => inr ("strconv.ParseUint: parsing " +:+ s +:+ ": invalid syntax")
      | Some n =>
          if n <=? 65535 then inl n
          else inr ("strconv.ParseUint: parsing " +:+ s +:+ ": value out of range")
      end
  end.

(** The text before the first ["-"], and what follows it when there is
    one. *)
Fixpoint cut_dash (s : string) : string * option string :=
  match s with
  | EmptyString => (EmptyString, None)
  | String c rest =>
      if Ascii.eqb c "-"%char then (EmptyString, Some rest)
      else let (head, tail) := cut_dash rest in (String c head, tail)
  end.

Definition ParsePortRange (ports : string) : N * N + Foreign :=
  match cut_dash ports with
  | (_, None) =>
      match ParseUint16 ports with
      | inl n => inl (n, n)
      | inr e => inr e
      end
  | (lo, Some more) =>
      match ParseUint16 lo with
      | inr e => inr e
      | inl start =>
          match ParseUint16 (fst (cut_dash more)) with
          | inr e => inr e
          | inl stop =>
              if stop <? start
              then inr ("invalid range specified for port: " +:+ ports)
              else inl (start, stop)
          end
      end
  end.

Definition NewPort (proto port : string) : Port + Foreign :=
  match port with
  | EmptyString => inl ("0/" +:+ proto)
  | _ =>
      match ParsePortRange port with
      | inr e => inr e
      | inl (start, stop) =>
          if start =? stop then inl (pretty start +:+ "/" +:+ proto)
          else inl (pretty start +:+ "-" +:+ pretty stop +:+ "/" +:+ proto)
      end
  end.

(** What a scripted daemon answers.  Its state counts the requests it has
    served; inspections are answered by that count. *)
Record Script : Type := {
  listing : list ImageSummary + Foreign;
  pulling : ReadCloser + Foreign;
  creating : CreateResponse + Foreign;
  starting : unit + Foreign;
  inspecting : nat → InspectResponse + Foreign;
  removing : unit + Foreign;
  latency : Duration;
}.

Definition answer {A} (s : Script) (r : A + Foreign) (served : nat) : Reply nat A :=
  {| result := r; took := latency s; after := S served |}.

Definition scripted (s : Script) : Client nat := {|
  NewClientWithOpts _ := None;
  Ping _ _ n := answer s (inl tt) n;
  ImageList _ _ _ n := answer s (listing s) n;
  ImagePull _ _ _ _ n := answer s (pulling s) n;
  ContainerCreate _ _ _ _ _ _ _ n := answer s (creating s) n;
  ContainerStart _ _ _ _ n := answer s (starting s) n;
  ContainerInspect _ _ _ n := answer s (inspecting s n) n;
  ContainerRemove _ _ _ _ n := answer s (removing s) n;
  ImageRemove _ _ _ _ n := answer s (removing s) n;
|}.

Definition stopped : InspectResponse := {| State := {| Running := false |} |}.
Definition running : InspectResponse := {| State := {| Running := true |} |}.

(** A daemon that has the image, creates container ["c1"] and reports it
    running from the third request it serves. *)
Definition healthy : Script := {|
  listing := inl [{| ImageID := "sha256:1" |}];
  pulling := inl (Data [Byte.x78; Byte.x79] (Data [Byte.x7a] AtEOF));
  creating := inl {| ID := "c1" |};
  starting := inl tt;
  inspecting n := inl (if (n <? 3)%nat then stopped else running);
  removing := inl tt;
  latency := 7;
|}.

(** The image is absent and the pull works. *)
Definition absent : Script := {|
  listing := inl [];
  pulling := pulling healthy;
  creating := creating healthy;
  starting := starting healthy;
  inspecting := inspecting healthy;
  removing := removing healthy;
  latency := 7;
|}.

(** Listing images fails; everything else works. *)
Definition unreachable_listing : Script := {|
  listing := inr "Cannot connect to the Docker daemon";
  pulling := pulling healthy;
  creating := creating healthy;
  starting := starting healthy;
  inspecting := inspecting healthy;
  removing := removing healthy;
  latency := 7;
|}.

(** The container never runs. *)
Definition stuck : Script := {|
  listing := listing healthy;
  pulling := pulling healthy;
  creating := creating healthy;
  starting := starting healthy;
  inspecting _ := inl stopped;
  removing := removing healthy;
  latency := 7;
|}.


(** Port maps: two host ports on one container port; a port that does not
    parse; both. *)
Definition two_hosts_one_port : gmap string string :=
  <["8080" := "80"]> (<["9090" := "80"]> ∅).

Definition one_bad_port : gmap string string := <["8080" := "abc"]> ∅.

Definition with_a_bad_port : gmap string string :=
  <["3" := "abc"]> (<["1" := "80"]> (<["2" := "80"]> ∅)).

(** A daemon that answers at once: its answers are always in time. *)
Definition at_once (s : Script) : Script := {|
  listing := listing s;
  pulling := pulling s;
  creating := creating s;
  starting := starting s;
  inspecting := inspecting s;
  removing := removing s;
  latency := 0;
|}.

(** The start request is refused. *)
Definition refusing_start : Script := {|
  listing := listing healthy;
  pulling := pulling healthy;
  creating := creating healthy;
  starting := inr "No such container: c1";
  inspecting := inspecting healthy;
  removing := removing healthy;
  latency := 7;
|}.

(** Creating a container fails. *)
Definition refusing_create : Script := {|
  listing := listing healthy;
  pulling := pulling healthy;
  creating := inr "Conflict. The container name is already in use";
  starting := starting healthy;
  inspecting := inspecting healthy;
  removing := removing healthy;
  latency := 7;
|}.

(** The container never runs, and every answer takes 150 ms. *)
Definition sluggish : Script := {|
  listing := listing healthy;
  pulling := pulling healthy;
  creating := creating healthy;
  starting := starting healthy;
  inspecting _ := inl stopped;
  removing := removing healthy;
  latency := 150;
|}.

(** A client whose start request is answered after 95 ms and whose
    inspections are answered after 10 ms; the container never runs.  It
    does not look at the context by itself. *)
Definition late_start : Client nat := {|
  NewClientWithOpts _ := None;
  Ping _ _ n := answer stuck (inl tt) n;
  ImageList _ _ _ n := answer stuck (listing stuck) n;
  ImagePull _ _ _ _ n := answer stuck (pulling stuck) n;
  ContainerCreate _ _ _ _ _ _ _ n := answer stuck (creating stuck) n;
  ContainerStart _ _ _ _ n := {| result := inl tt; took := 95; after := S n |};
  ContainerInspect _ _ _ n := {| result := inl stopped; took := 10; after := S n |};
  ContainerRemove _ _ _ _ n := answer stuck (removing stuck) n;
  ImageRemove _ _ _ _ n := answer stuck (removing stuck) n;
|}.

(** Two host ports on two container ports. *)
Definition two_hosts_two_ports : gmap string string :=
  <["8080" := "80"]> (<["9090" := "443"]> ∅).

Definition boot : World nat :=
  {| now := 0; daemon := 0%nat; trace := []; flips := 0%nat |}.

End Fixtures.

(** ** Vocabulary of the statements *)

Definition binding (hPort : string) : list PortBinding :=
  [{| HostIP := "0.0.0.0"; HostPort := hPort |}].

Section Vocabulary.

Context {D : Type} (client : Client D).
Context (NewPort : string → string → Port + Foreign).

(** The request [VerifyHaveImage] sends from world [w], and what the
    daemon answers. *)
Definition verify_ctx (w : World D) : Context :=
  {| created := now w; timeout := dockerImageVerifyTimeout |}.

Definition listing_of (dockerImage : string) (w : World D)
    : Reply D (list ImageSummary) :=
  ImageList client (verify_ctx w) (now w) dockerImage (daemon w).

(** The request [PullImage] sends once the check said the image is not
    there: it is sent from the world the check left. *)
Definition pull_ctx (w : World D) : Context :=
  {| created := now w; timeout := dockerPullTimeout |}.

Definition pulling_of (dockerImage : string) (w : World D) : Reply D ReadCloser :=
  ImagePull client (pull_ctx w) (now w) dockerImage {| All := false |} (daemon w).

Definition pull_request (dockerImage : string) (w : World D) : Event :=
  Request (CallImagePull dockerImage {| All := false |}) (pull_ctx w) (now w)
    (match result (pulling_of dockerImage w) with inl _ => None | inr e => Some e end).

(** The host port of the entry visited last among those whose container
    port translates to [p]. *)
Fixpoint last_host (p : Port) (entries : list (string * string)) : option string :=
  match entries with
  | [] => None
  | (hPort, cPort) :: rest =>
      match last_host p rest with
      | Some h => Some h
      | None => if decide (NewPort "tcp" cPort = inl p) then Some hPort else None
      end
  end.

(** The request [CreateContainer] sends from world [w] once the ports
    were translated to [portmap], and what the daemon answers. *)
Definition create_ctx (w : World D) : Context :=
  {| created := now w; timeout := dockerCreateContainerTimeout |}.

Definition creating_of (dockerImage containerName : string)
    (portmap : gmap string (list PortBinding)) (w : World D) : Reply D CreateResponse :=
  ContainerCreate client (create_ctx w) (now w)
    {| Image := dockerImage; Tty := false |}
    {| PortBindings := portmap; AutoRemove := true |} None None containerName
    (daemon w).

Definition create_request (dockerImage containerName : string)
    (portmap : gmap string (list PortBinding)) (w : World D) : Event :=
  Request
    (CallContainerCreate {| Image := dockerImage; Tty := false |}
       {| PortBindings := portmap; AutoRemove := true |} None None containerName)
    (create_ctx w) (now w)
    (match result (creating_of dockerImage containerName portmap w) with
     | inl _ => None | inr e => Some e end).

(** Every container port of the map parses. *)
Definition all_ports_valid (ports : gmap string string) : Prop :=
  ∀ h c, ports !! h = Some c → ∃ p, NewPort "tcp" c = inl p.

(** The request [StartContainer] sends first, and what the daemon
    answers. *)
Definition start_ctx (w : World D) : Context :=
  {| created := now w; timeout := dockerStartContainerTimeout |}.

Definition starting_of (containerID : string) (w : World D) : Reply D unit :=
  ContainerStart client (start_ctx w) (now w) containerID
    {| CheckpointID := ""; CheckpointDir := "" |} (daemon w).

Definition start_request (containerID : string) (w : World D) : Event :=
  Request (CallContainerStart containerID {| CheckpointID := ""; CheckpointDir := "" |})
    (start_ctx w) (now w)
    (match result (starting_of containerID w) with
     | inl _ => None | inr e => Some e end).

(** The world once the start request was answered, and the ticker made
    then. *)
Definition started (containerID : string) (w : World D) : World D :=
  {| now := now w + took (starting_of containerID w);
     daemon := after (starting_of containerID w);
     trace := trace w ++ [start_request containerID w];
     flips := flips w |}.

Definition first_ticker (containerID : string) (w : World D) : Ticker :=
  {| period := 100;
     next_fire := now (started containerID w) + 100;
     pending := false |}.

(** Every inspection of the container is answered in less than [within]. *)
Definition prompt (containerID : string) (within : Duration) : Prop :=
  ∀ ctx t d, took (ContainerInspect client ctx t containerID d) < within.

End Vocabulary.

(** The error [StartContainer] returns when the daemon refuses. *)
Definition start_failed (containerID : string) (cause : Foreign) : error :=
  Joined [Errorf_w (New ErrStartingContainer) containerID; Cause cause].

Definition is_failed_inspect (ev : Event) : bool :=
  match ev with
  | Request (CallContainerInspect _) _ _ (Some _) => true
  | _ => false
  end.

(** Every request among [evs] was sent under [ctx]. *)
Definition governed_by (ctx : Context) (evs : list Event) : Prop :=
  Forall (fun ev => ∀ c, event_ctx ev = Some c → c = ctx) evs.

(** The random choice of [select] does not avoid a case for ever. *)
Definition fair (fastrand : nat → bool) : Prop :=
  ∀ n, ∃ m, (n ≤ m)%nat ∧ fastrand m = true.

(** ** Vocabulary of the further properties *)

Definition is_list (ev : Event) : bool :=
  match ev with Request (CallImageList _) _ _ _ => true | _ => false end.

Definition is_request (ev : Event) : bool :=
  match ev with Request _ _ _ _ => true | Read _ => false end.

(** Inspections of a container under one context, whatever they came back
    with, the first sent no earlier than [since] and each later one no
    earlier than [every] after the earliest time allowed to the one before. *)
Fixpoint spaced (containerID : string) (ctx : Context) (every : Duration)
    (since : N) (evs : list Event) : Prop :=
  match evs with
  | [] => True
  | ev :: rest =>
      (∃ sent failure,
         ev = Request (CallContainerInspect containerID) ctx sent failure ∧
         since ≤ sent) ∧
      spaced containerID ctx every (since + every) rest
  end.

(** Inspections of a container under one context, whatever they came back
    with, the first sent at [due] and each later one [every] after the one
    before. *)
Fixpoint on_the_tick (containerID : string) (ctx : Context) (every : Duration)
    (due : N) (evs : list Event) : Prop :=
  match evs with
  | [] => True
  | ev :: rest =>
      (∃ failure, ev = Request (CallContainerInspect containerID) ctx due failure) ∧
      on_the_tick containerID ctx every (due + every) rest
  end.

Section FurtherVocabulary.

Context {D : Type} (client : Client D).
Context (NewPort : string → string → Port + Foreign).

(** An answer to a request sent at [t] under [ctx] that does not outlast
    the deadline of [ctx]: it is there by the deadline, or at once when the
    deadline has passed. *)
Definition in_time {A : Type} (ctx : Context) (t : N) (r : Reply D A) : Prop :=
  t + took r ≤ N.max t (Deadline ctx).

(** The client gives up on a request when the deadline of its context
    comes. *)
Definition honours_deadlines : Prop :=
  ∀ ctx t d,
    in_time ctx t (Ping client ctx t d) ∧
    (∀ ref, in_time ctx t (ImageList client ctx t ref d)) ∧
    (∀ ref options, in_time ctx t (ImagePull client ctx t ref options d)) ∧
    (∀ config hostConfig networking platform name,
       in_time ctx t (ContainerCreate client ctx t config hostConfig
                        networking platform name d)) ∧
    (∀ id options, in_time ctx t (ContainerStart client ctx t id options d)) ∧
    (∀ id, in_time ctx t (ContainerInspect client ctx t id d)) ∧
    (∀ id options, in_time ctx t (ContainerRemove client ctx t id options d)) ∧
    (∀ ref options, in_time ctx t (ImageRemove client ctx t ref options d)).

(** What a client that keeps the contract of [context.Context] makes of
    the answer [r] to a request sent at [t] under [ctx], the daemon being in
    state [d]: a request under a context that is done is not sent and fails
    at once; an answer that would come after the deadline is given up at
    the deadline; any other answer is passed on. *)
Definition cut {A : Type} (ctx : Context) (t : N) (d : D) (r : Reply D A)
    : Reply D A :=
  if Deadline ctx <=? t then
    {| result := inr "context deadline exceeded"; took := 0; after := d |}
  else if Deadline ctx <? t + took r then
    {| result := inr "context deadline exceeded";
       took := Deadline ctx - t; after := after r |}
  else r.

(** The client [client], made to keep the contract of the context. *)
Definition honouring : Client D := {|
  NewClientWithOpts := NewClientWithOpts client;
  Ping ctx t d := cut ctx t d (Ping client ctx t d);
  ImageList ctx t ref d := cut ctx t d (ImageList client ctx t ref d);
  ImagePull ctx t ref options d := cut ctx t d (ImagePull client ctx t ref options d);
  ContainerCreate ctx t config hostConfig networking platform name d :=
    cut ctx t d (ContainerCreate client ctx t config hostConfig
                   networking platform name d);
  ContainerStart ctx t id options d :=
    cut ctx t d (ContainerStart client ctx t id options d);
  ContainerInspect ctx t id d := cut ctx t d (ContainerInspect client ctx t id d);
  ContainerRemove ctx t id options d :=
    cut ctx t d (ContainerRemove client ctx t id options d);
  ImageRemove ctx t ref options d :=
    cut ctx t d (ImageRemove client ctx t ref options d);
|}.

(** An inspection of the container that comes back with a state never
    reports it running. *)
Definition reports_stopped (containerID : string) : Prop :=
  ∀ ctx t d state,
    result (ContainerInspect client ctx t containerID d) = inl state →
    Running (State state) = false.

(** No two entries of the map have the same container port. *)
Definition distinct_container_ports (ports : gmap string string) : Prop :=
  ∀ h1 c1 h2 c2 p,
    ports !! h1 = Some c1 → ports !! h2 = Some c2 →
    NewPort "tcp" c1 = inl p → NewPort "tcp" c2 = inl p → h1 = h2.

(** The answers to the requests of [CreateClient] and of the removals. *)
Definition ping_of (w : World D) : Reply D unit :=
  Ping client {| created := now w; timeout := dockerConnectTimeout |} (now w) (daemon w).

Definition removing_container_of (containerID : string) (w : World D) : Reply D unit :=
  ContainerRemove client
    {| created := now w; timeout := dockerRemoveContainerTimeout |} (now w)
    containerID {| RemoveVolumes := true; Force := true |} (daemon w).

Definition removing_image_of (dockerImage : string) (w : World D) : Reply D unit :=
  ImageRemove client
    {| created := now w; timeout := dockerRemoveImageTimeout |} (now w)
    dockerImage {| ImageForce := false; PruneChildren := false |} (daemon w).

End FurtherVocabulary.

(** * Properties *)

(** ** Errors *)

Lemma errors_Join_pair (e1 e2 : error) :
  errors_Join [Some e1; Some e2] = Some (Joined [e1; e2]).
Proof. reflexivity. Qed.

Lemma errors_Is_Join_sentinel (s target : Sentinel) (cause : Foreign) :
  errors_Is (Joined [New s; Cause cause]) target = bool_decide (s = target).
Proof. simpl. by rewrite !orb_false_r. Qed.

Lemma errors_Is_Join_wrapped (s target : Sentinel) (arg : string) (cause : Foreign) :
  errors_Is (Joined [Errorf_w (New s) arg; Cause cause]) target = bool_decide (s = target).
Proof. simpl. by rewrite !orb_false_r. Qed.

(** ** Streams *)

Section Streams.

Context {D : Type}.

(** Copying a stream reads all of it: the reads deliver its payload and
    end with [io.EOF] or with the failure the stream ends in; nothing else
    in the world changes. *)
Lemma io_Copy_Discard_drains (body : ReadCloser) (written : N) (w : World D) :
  ∃ reads : list Event,
    io_Copy_Discard body written w =
      ((written + N.of_nat (length (payload body)), ending body),
       {| now := now w; daemon := daemon w;
          trace := trace w ++ reads; flips := flips w |}) ∧
    bytes_read reads = payload body ∧
    last reads = Some (Read (final_read body)) ∧
    Forall (fun ev => event_ctx ev = None) reads.
Proof.
  revert written w.
  induction body as [| cause | chunk rest IH]; intros written w.
  - exists [Read ReadEOF]. simpl.
    unfold bind, record_read, ret. simpl. rewrite N.add_0_r.
    repeat split; auto.
  - exists [Read (ReadFailed cause)]. simpl.
    unfold bind, record_read, ret. simpl. rewrite N.add_0_r.
    repeat split; auto.
  - simpl. unfold bind at 1. unfold record_read at 1.
    destruct (IH (written + N.of_nat (length chunk))
                 {| now := now w; daemon := daemon w;
                    trace := trace w ++ [Read (ReadBytes chunk)];
                    flips := flips w |})
      as (reads & Hrun & Hbytes & Hlast & Hctx).
    exists (Read (ReadBytes chunk) :: reads).
    rewrite Hrun. simpl. rewrite <- app_assoc. simpl.
    split; [| split; [| split]].
    + f_equal. f_equal. rewrite length_app. lia.
    + by rewrite Hbytes.
    + unfold final_read in *. simpl.
      destruct reads as [| r reads']; [discriminate |]. exact Hlast.
    + constructor; auto.
Qed.

End Streams.

(** ** Images *)

Section Images.

Context {D : Type} (client : Client D).

(** The world after [VerifyHaveImage]: one more request in the trace. *)
Lemma VerifyHaveImage_world (dockerImage : string) (w : World D) :
  snd (VerifyHaveImage client dockerImage w) =
    {| now := now w + took (listing_of client dockerImage w);
       daemon := after (listing_of client dockerImage w);
       trace := trace w ++
         [Request (CallImageList dockerImage) (verify_ctx w) (now w)
            (match result (listing_of client dockerImage w) with
             | inl _ => None | inr e => Some e end)];
       flips := flips w |}.
Proof.
  unfold VerifyHaveImage, bind, WithTimeout, request, listing_of, verify_ctx. simpl.
  destruct (result _) as [images | err]; simpl; [| reflexivity].
  destruct (0 <? _); reflexivity.
Qed.

Lemma VerifyHaveImage_result (dockerImage : string) (w : World D) :
  fst (VerifyHaveImage client dockerImage w) =
    match result (listing_of client dockerImage w) with
    | inr cause => Some (Joined [New ErrListingImages; Cause cause])
    | inl [] => Some (Errorf_w (New ErrImageNotPresent) dockerImage)
    | inl (_ :: _) => None
    end.
Proof.
  unfold VerifyHaveImage, bind, WithTimeout, request, listing_of, verify_ctx. simpl.
  destruct (result _) as [[| image images] | err]; reflexivity.
Qed.

(** C2: [VerifyHaveImage] returns nil exactly when the listing succeeds
    with at least one match; with no match it returns an error that is
    [ErrImageNotPresent] and carries the requested reference; when the
    listing itself fails it returns an error that is [ErrListingImages] and
    is not [ErrImageNotPresent]. *)
Theorem VerifyHaveImage_outcomes (dockerImage : string) (w : World D) :
  let listed := result (listing_of client dockerImage w) in
  let err := fst (VerifyHaveImage client dockerImage w) in
  (err = None ↔ ∃ images, listed = inl images ∧ (0 < length images)%nat) ∧
  (∀ images, listed = inl images → length images = 0%nat →
     err = Some (Errorf_w (New ErrImageNotPresent) dockerImage) ∧
     ∃ e, err = Some e ∧
          errors_Is e ErrImageNotPresent = true ∧
          errors_Is e ErrListingImages = false ∧
          Error e = "docker image is not present: " +:+ dockerImage) ∧
  (∀ cause, listed = inr cause →
     ∃ e, err = Some e ∧
          e = Joined [New ErrListingImages; Cause cause] ∧
          errors_Is e ErrListingImages = true ∧
          errors_Is e ErrImageNotPresent = false).
Proof.
  intros listed err. subst listed err. rewrite VerifyHaveImage_result.
  split; [| split].
  - destruct (result (listing_of client dockerImage w)) as [[| image images] | cause];
      split; try discriminate.
    + intros (found & Heq & Hlen). injection Heq as <-. simpl in Hlen. lia.
    + intros _. exists (image :: images). split; [reflexivity | simpl; lia].
    + reflexivity.
    + intros (found & Heq & _). discriminate.
  - intros images -> Hlen. destruct images; [| discriminate].
    split; [reflexivity |]. eexists. split; [reflexivity |]. by repeat split.
  - intros cause ->. eexists. split; [reflexivity |]. by repeat split.
Qed.

(** C7: when the presence check returns nil, [PullImage] returns nil and
    does nothing beyond the check: the trace holds the listing request of
    the check and no pull request. *)
Theorem PullImage_present_short_circuits (dockerImage : string) (w : World D) :
  fst (VerifyHaveImage client dockerImage w) = None →
  PullImage client dockerImage w = (None, snd (VerifyHaveImage client dockerImage w)) ∧
  ∃ listed : Event,
    trace (snd (PullImage client dockerImage w)) = trace w ++ [listed] ∧
    is_pull listed = false ∧
    filter (fun ev => is_pull ev = true)
      (drop (length (trace w)) (trace (snd (PullImage client dockerImage w)))) = [].
Proof.
  intros Hpresent.
  assert (Hrun : PullImage client dockerImage w =
                 (None, snd (VerifyHaveImage client dockerImage w))).
  { unfold PullImage, bind.
    destruct (VerifyHaveImage client dockerImage w) as [err w1] eqn:Hv.
    simpl in Hpresent. subst err. reflexivity. }
  split; [exact Hrun |].
  rewrite Hrun. simpl. rewrite VerifyHaveImage_world. simpl.
  eexists. split; [reflexivity |]. split; [reflexivity |].
  rewrite drop_app_length. reflexivity.
Qed.

(** What [PullImage] does when the check returned an error: it pulls from
    the world the check left, and drains the stream it gets. *)
Lemma PullImage_absent (dockerImage : string) (w : World D) (e : error) :
  fst (VerifyHaveImage client dockerImage w) = Some e →
  let w1 := snd (VerifyHaveImage client dockerImage w) in
  match result (pulling_of client dockerImage w1) with
  | inr cause =>
      PullImage client dockerImage w =
        (Some (Joined [Errorf_w (New ErrPullingImage) dockerImage; Cause cause]),
         {| now := now w1 + took (pulling_of client dockerImage w1);
            daemon := after (pulling_of client dockerImage w1);
            trace := trace w1 ++ [pull_request client dockerImage w1];
            flips := flips w1 |})
  | inl body =>
      ∃ reads : list Event,
        PullImage client dockerImage w =
          (match ending body with
           | None => None
           | Some cause => Some (Joined [New ErrReadingPulledImage; Cause cause])
           end,
           {| now := now w1 + took (pulling_of client dockerImage w1);
              daemon := after (pulling_of client dockerImage w1);
              trace := trace w1 ++ pull_request client dockerImage w1 :: reads;
              flips := flips w1 |}) ∧
        bytes_read reads = payload body ∧
        last reads = Some (Read (final_read body)) ∧
        Forall (fun ev => event_ctx ev = None) reads
  end.
Proof.
  intros Hfail w1. subst w1.
  unfold PullImage, bind.
  destruct (VerifyHaveImage client dockerImage w) as [err w1] eqn:Hv.
  simpl in Hfail. subst err. simpl.
  unfold WithTimeout, request, pull_request. simpl.
  fold (pull_ctx w1). fold (pulling_of client dockerImage w1).
  destruct (result (pulling_of client dockerImage w1)) as [body | cause] eqn:Hpull.
  - destruct (io_Copy_Discard_drains body 0
                {| now := now w1 + took (pulling_of client dockerImage w1);
                   daemon := after (pulling_of client dockerImage w1);
                   trace := trace w1 ++
                     [Request (CallImagePull dockerImage {| All := false |})
                        (pull_ctx w1) (now w1) None];
                   flips := flips w1 |})
      as (reads & Hrun & Hbytes & Hlast & Hctx).
    exists reads. rewrite Hrun. simpl. rewrite <- app_assoc. simpl.
    split; [| auto].
    destruct (ending body); reflexivity.
  - reflexivity.
Qed.

(** C8: when [PullImage] goes on to pull, a pull request that fails gives
    an error that is [ErrPullingImage] and carries the image reference; a
    stream that is obtained is read to its end before anything is returned,
    nil is returned only after [io.EOF] was read, and a read that fails
    gives an error that is [ErrReadingPulledImage] and not
    [ErrPullingImage]. *)
Theorem PullImage_drains_and_tells_failures_apart
    (dockerImage : string) (w : World D) (e : error) :
  fst (VerifyHaveImage client dockerImage w) = Some e →
  let w1 := snd (VerifyHaveImage client dockerImage w) in
  let run := PullImage client dockerImage w in
  (∀ cause, result (pulling_of client dockerImage w1) = inr cause →
     ∃ err, fst run = Some err ∧
       err = Joined [Errorf_w (New ErrPullingImage) dockerImage; Cause cause] ∧
       Error (Errorf_w (New ErrPullingImage) dockerImage) =
         "error pulling image: " +:+ dockerImage ∧
       errors_Is err ErrPullingImage = true ∧
       errors_Is err ErrReadingPulledImage = false ∧
       trace (snd run) = trace w1 ++ [pull_request client dockerImage w1]) ∧
  (∀ body, result (pulling_of client dockerImage w1) = inl body →
     ∃ reads : list Event,
       trace (snd run) = trace w1 ++ pull_request client dockerImage w1 :: reads ∧
       bytes_read reads = payload body ∧
       last reads = Some (Read (final_read body)) ∧
       (fst run = None ↔ ending body = None) ∧
       (fst run = None → last reads = Some (Read ReadEOF)) ∧
       (∀ cause, ending body = Some cause →
          ∃ err, fst run = Some err ∧
            err = Joined [New ErrReadingPulledImage; Cause cause] ∧
            errors_Is err ErrReadingPulledImage = true ∧
            errors_Is err ErrPullingImage = false)).
Proof.
  intros Hfail w1 run. subst run.
  pose proof (PullImage_absent dockerImage w e Hfail) as Hrun.
  simpl in Hrun. fold w1 in Hrun.
  split.
  - intros cause Hpull. rewrite Hpull in Hrun. rewrite Hrun. simpl.
    eexists. split; [reflexivity |]. by repeat split.
  - intros body Hpull. rewrite Hpull in Hrun.
    destruct Hrun as (reads & Hrun & Hbytes & Hlast & _).
    exists reads. rewrite Hrun. simpl.
    split; [reflexivity |]. split; [exact Hbytes |]. split; [exact Hlast |].
    unfold final_read in Hlast.
    destruct (ending body) as [cause |] eqn:Hend.
    + split; [split; discriminate |]. split; [discriminate |].
      intros cause' [= <-]. eexists. split; [reflexivity |]. by repeat split.
    + split; [done |]. split; [done |]. discriminate.
Qed.

(** C1, as the code has it: when the listing inside [PullImage] fails,
    [PullImage] still sends the pull request, and what it returns is never
    the listing error. *)
Theorem PullImage_listing_error_still_pulls
    (dockerImage : string) (w : World D) (cause : Foreign) :
  result (listing_of client dockerImage w) = inr cause →
  let w1 := snd (VerifyHaveImage client dockerImage w) in
  let run := PullImage client dockerImage w in
  fst (VerifyHaveImage client dockerImage w) =
    Some (Joined [New ErrListingImages; Cause cause]) ∧
  (∃ rest : list Event,
     trace (snd run) = trace w1 ++ pull_request client dockerImage w1 :: rest ∧
     is_pull (pull_request client dockerImage w1) = true) ∧
  (∀ err, fst run = Some err → errors_Is err ErrListingImages = false) ∧
  (∀ body, result (pulling_of client dockerImage w1) = inl body →
     ending body = None → fst run = None).
Proof.
  intros Hlist w1 run. subst run.
  assert (Hv : fst (VerifyHaveImage client dockerImage w) =
               Some (Joined [New ErrListingImages; Cause cause])).
  { rewrite VerifyHaveImage_result, Hlist. reflexivity. }
  split; [exact Hv |].
  pose proof (PullImage_absent dockerImage w _ Hv) as Hrun.
  simpl in Hrun. fold w1 in Hrun.
  destruct (result (pulling_of client dockerImage w1)) as [body | failed].
  - destruct Hrun as (reads & Hrun & _). rewrite Hrun. simpl.
    split; [exists reads; done |].
    split.
    + intros err. destruct (ending body); [| discriminate].
      intros [= <-]. reflexivity.
    + intros body' [= <-] ->. reflexivity.
  - rewrite Hrun. simpl.
    split; [exists []; done |].
    split; [| discriminate].
    intros err [= <-]. reflexivity.
Qed.

End Images.

(** ** Containers: the port map *)

Section PortMap.

Context (NewPort : string → string → Port + Foreign).

Lemma last_host_Some (p : Port) (entries : list (string * string)) (h : string) :
  last_host NewPort p entries = Some h →
  ∃ before c after,
    entries = before ++ (h, c) :: after ∧
    NewPort "tcp" c = inl p ∧
    ∀ h' c', (h', c') ∈ after → NewPort "tcp" c' ≠ inl p.
Proof.
  induction entries as [| [h0 c0] rest IH]; simpl; [discriminate |].
  destruct (last_host NewPort p rest) as [h1 |] eqn:Hrest.
  - intros [= ->]. destruct (IH eq_refl) as (before & c & after & -> & Hp & Hafter).
    exists ((h0, c0) :: before), c, after. done.
  - case_decide as Hp; [| discriminate]. intros [= ->].
    exists [], c0, rest. split; [done |]. split; [done |].
    intros h' c' Hin Hp'. clear IH.
    induction rest as [| [h2 c2] rest IH]; [by apply elem_of_nil in Hin |].
    simpl in Hrest. destruct (last_host NewPort p rest); [discriminate |].
    case_decide as Hp2; [discriminate |].
    apply elem_of_cons in Hin as [[= -> ->] | Hin]; [done | by apply IH].
Qed.

Lemma last_host_None (p : Port) (entries : list (string * string)) (h c : string) :
  (h, c) ∈ entries → NewPort "tcp" c = inl p → last_host NewPort p entries ≠ None.
Proof.
  induction entries as [| [h0 c0] rest IH]; intros Hin Hp.
  - by apply elem_of_nil in Hin.
  - simpl. apply elem_of_cons in Hin as [[= <- <-] | Hin].
    + destruct (last_host NewPort p rest); [done |]. by rewrite decide_True.
    + specialize (IH Hin Hp). by destruct (last_host NewPort p rest).
Qed.

(** The loop fails as soon as it visits a port that does not parse. *)
Lemma range_ports_invalid (entries : list (string * string))
    (portmap : gmap string (list PortBinding)) (h c : string) (e : Foreign) :
  (h, c) ∈ entries → NewPort "tcp" c = inr e →
  ∃ cause, range_ports NewPort entries portmap = inr cause.
Proof.
  revert portmap.
  induction entries as [| [h0 c0] rest IH]; intros portmap Hin Hbad.
  - by apply elem_of_nil in Hin.
  - simpl. destruct (NewPort "tcp" c0) as [p0 |] eqn:Hp0; [| by eexists].
    apply elem_of_cons in Hin as [[= <- <-] | Hin]; [congruence |].
    by apply IH.
Qed.

(** The loop succeeds when every port it visits parses. *)
Lemma range_ports_valid (entries : list (string * string))
    (portmap : gmap string (list PortBinding)) :
  (∀ h c, (h, c) ∈ entries → ∃ p, NewPort "tcp" c = inl p) →
  ∃ pm, range_ports NewPort entries portmap = inl pm.
Proof.
  revert portmap.
  induction entries as [| [h0 c0] rest IH]; intros portmap Hvalid.
  - by eexists.
  - simpl. destruct (Hvalid h0 c0) as [p0 ->]; [by left |].
    apply IH. intros h c Hin. apply (Hvalid h c). by right.
Qed.

(** What the loop leaves under a container port: the binding of the entry
    visited last for it, or what was there before. *)
Lemma range_ports_lookup (entries : list (string * string))
    (portmap pm : gmap string (list PortBinding)) (p : Port) :
  range_ports NewPort entries portmap = inl pm →
  pm !! p = match last_host NewPort p entries with
            | Some h => Some (binding h)
            | None => portmap !! p
            end.
Proof.
  revert portmap.
  induction entries as [| [h0 c0] rest IH]; intros portmap; simpl.
  - by intros [= ->].
  - destruct (NewPort "tcp" c0) as [p0 |] eqn:Hp0; [| discriminate].
    intros Hrun. rewrite (IH _ Hrun).
    destruct (last_host NewPort p rest); [done |].
    case_decide as Hp.
    + injection Hp as ->. by rewrite lookup_insert_eq.
    + rewrite lookup_insert_ne; [done | congruence].
Qed.

End PortMap.

Section Containers.

Context {D : Type} (client : Client D).
Context (NewPort : string → string → Port + Foreign).
Context (range_order : gmap string string → list (string * string)).

(** [range] visits every entry of the map once. *)
Hypothesis range_visits_each_entry_once :
  ∀ m, range_order m ≡ₚ map_to_list m.

Lemma range_order_lookup (ports : gmap string string) (h c : string) :
  (h, c) ∈ range_order ports ↔ ports !! h = Some c.
Proof.
  rewrite (range_visits_each_entry_once ports). apply elem_of_map_to_list.
Qed.

Lemma range_order_NoDup (ports : gmap string string) :
  NoDup (range_order ports).*1.
Proof.
  rewrite (range_visits_each_entry_once ports). apply NoDup_fst_map_to_list.
Qed.

(** Once the ports are translated, [CreateContainer] sends one create
    request that carries the translated map. *)
Lemma CreateContainer_sends (dockerImage containerName : string)
    (ports : gmap string string) (pm : gmap string (list PortBinding)) (w : World D) :
  range_ports NewPort (range_order ports) ∅ = inl pm →
  CreateContainer client NewPort range_order dockerImage containerName ports w =
    (match result (creating_of client dockerImage containerName pm w) with
     | inl container => (ID container, None)
     | inr e => ("", Some (Joined [New ErrCreatingContainer; Cause e]))
     end,
     {| now := now w + took (creating_of client dockerImage containerName pm w);
        daemon := after (creating_of client dockerImage containerName pm w);
        trace := trace w ++ [create_request client dockerImage containerName pm w];
        flips := flips w |}).
Proof.
  intros Hpm. unfold CreateContainer. rewrite Hpm.
  unfold bind, WithTimeout, request, create_request, creating_of, create_ctx. simpl.
  destruct (result _); reflexivity.
Qed.

(** C5: when some container port of the map does not parse,
    [CreateContainer] returns the empty ID with an error that is
    [ErrPortMap], and leaves the world as it was: nothing is sent to the
    daemon, and no binding of the map reaches it. *)
Theorem CreateContainer_invalid_port_aborts (dockerImage containerName : string)
    (ports : gmap string string) (w : World D) (h c : string) (e : Foreign) :
  ports !! h = Some c →
  NewPort "tcp" c = inr e →
  ∃ cause err,
    CreateContainer client NewPort range_order dockerImage containerName ports w =
      (("", Some err), w) ∧
    err = Joined [New ErrPortMap; Cause cause] ∧
    errors_Is err ErrPortMap = true ∧
    errors_Is err ErrCreatingContainer = false ∧
    filter (fun ev => is_create ev = true)
      (trace (snd (CreateContainer client NewPort range_order
                     dockerImage containerName ports w))) =
    filter (fun ev => is_create ev = true) (trace w).
Proof.
  intros Hentry Hbad.
  apply range_order_lookup in Hentry.
  destruct (range_ports_invalid NewPort _ ∅ h c e Hentry Hbad) as [cause Hrun].
  exists cause. eexists.
  unfold CreateContainer. rewrite Hrun. simpl.
  split; [reflexivity |]. by repeat split.
Qed.

(** C6, amended: when every container port of the map parses, the create
    request carries a port map in which each entry's container port is
    bound to a one-element list with host IP 0.0.0.0 and the host port of
    an entry with that container port -- the entry's own host port when no
    other entry has the same container port -- and every container port of
    the map sent is bound to exactly one such binding. *)
Theorem CreateContainer_port_bindings (dockerImage containerName : string)
    (ports : gmap string string) (w : World D) :
  all_ports_valid NewPort ports →
  ∃ pm : gmap string (list PortBinding),
    trace (snd (CreateContainer client NewPort range_order
                  dockerImage containerName ports w)) =
      trace w ++ [create_request client dockerImage containerName pm w] ∧
    (∀ h c p, ports !! h = Some c → NewPort "tcp" c = inl p →
       ∃ h', pm !! p = Some [{| HostIP := "0.0.0.0"; HostPort := h' |}] ∧
             (∃ c', ports !! h' = Some c' ∧ NewPort "tcp" c' = inl p) ∧
             ((∀ h2 c2, ports !! h2 = Some c2 → NewPort "tcp" c2 = inl p → h2 = h) →
              h' = h)) ∧
    (∀ p bs, pm !! p = Some bs →
       length bs = 1%nat ∧
       ∃ h c, ports !! h = Some c ∧ NewPort "tcp" c = inl p ∧
              bs = [{| HostIP := "0.0.0.0"; HostPort := h |}]).
Proof.
  intros Hvalid.
  destruct (range_ports_valid NewPort (range_order ports) ∅) as [pm Hpm].
  { intros h c Hin. apply range_order_lookup in Hin. eauto. }
  exists pm. rewrite (CreateContainer_sends _ _ _ pm w Hpm). simpl.
  split; [reflexivity |]. split.
  - intros h c p Hentry Hp.
    rewrite (range_ports_lookup NewPort _ _ _ p Hpm).
    destruct (last_host NewPort p (range_order ports)) as [h' |] eqn:Hlast.
    + exists h'. split; [reflexivity |].
      destruct (last_host_Some NewPort _ _ _ Hlast)
        as (before & c' & after & Horder & Hp' & _).
      assert (Hentry' : ports !! h' = Some c').
      { apply range_order_lookup. rewrite Horder. set_solver. }
      split; [by exists c' |]. intros Huniq. by apply (Huniq h' c').
    + exfalso. apply range_order_lookup in Hentry.
      by apply (last_host_None NewPort p _ h c Hentry Hp).
  - intros p bs. rewrite (range_ports_lookup NewPort _ _ _ p Hpm).
    destruct (last_host NewPort p (range_order ports)) as [h |] eqn:Hlast;
      [| by rewrite lookup_empty].
    intros [= <-]. split; [reflexivity |].
    destruct (last_host_Some NewPort _ _ _ Hlast)
      as (before & c & after & Horder & Hp & _).
    exists h, c. split; [| done].
    apply range_order_lookup. rewrite Horder. set_solver.
Qed.

(** C10, amended: when every container port of the map parses and two
    different host ports have the same container port, the translation
    returns no error and the create request is sent; its port map binds
    that container port to one one-element list, whose host port belongs
    to the entry visited last among the entries with that container port,
    so at least one of the two host ports is absent from the map sent. *)
Theorem CreateContainer_colliding_ports (dockerImage containerName : string)
    (ports : gmap string string) (w : World D) (h1 h2 c : string) (p : Port) :
  all_ports_valid NewPort ports →
  h1 ≠ h2 →
  ports !! h1 = Some c →
  ports !! h2 = Some c →
  NewPort "tcp" c = inl p →
  ∃ (pm : gmap string (list PortBinding)) (h : string),
    range_ports NewPort (range_order ports) ∅ = inl pm ∧
    trace (snd (CreateContainer client NewPort range_order
                  dockerImage containerName ports w)) =
      trace w ++ [create_request client dockerImage containerName pm w] ∧
    (∀ err, snd (fst (CreateContainer client NewPort range_order
                        dockerImage containerName ports w)) = Some err →
            errors_Is err ErrPortMap = false) ∧
    pm !! p = Some [{| HostIP := "0.0.0.0"; HostPort := h |}] ∧
    (h ≠ h1 ∨ h ≠ h2) ∧
    (∃ before c' after,
       range_order ports = before ++ (h, c') :: after ∧
       NewPort "tcp" c' = inl p ∧
       ∀ h' c'', (h', c'') ∈ after → NewPort "tcp" c'' ≠ inl p).
Proof.
  intros Hvalid Hne H1 H2 Hp.
  destruct (range_ports_valid NewPort (range_order ports) ∅) as [pm Hpm].
  { intros h c0 Hin. apply range_order_lookup in Hin. eauto. }
  pose proof (range_ports_lookup NewPort _ _ _ p Hpm) as Hlook.
  destruct (last_host NewPort p (range_order ports)) as [h |] eqn:Hlast.
  - exists pm, h. rewrite (CreateContainer_sends _ _ _ pm w Hpm). simpl.
    split; [done |]. split; [done |]. split.
    { intros err. destruct (result _); [discriminate |]. by intros [= <-]. }
    split; [exact Hlook |]. split.
    + destruct (decide (h = h1)) as [-> |]; [right; done | left; done].
    + by apply last_host_Some.
  - exfalso. apply range_order_lookup in H1.
    by apply (last_host_None NewPort p _ h1 c H1 Hp).
Qed.

End Containers.

(** ** Starting a container *)

Section Ticking.

Lemma observe_cases (t : N) (tk : Ticker) :
  0 < period tk →
  (next_fire tk ≤ t ∧
   pending (observe t tk) = true ∧
   period (observe t tk) = period tk ∧
   next_fire tk + period tk ≤ next_fire (observe t tk) ∧
   t < next_fire (observe t tk)) ∨
  (t < next_fire tk ∧ observe t tk = tk).
Proof.
  intros Hperiod. unfold observe.
  destruct (N.leb_spec (next_fire tk) t) as [Hdue | Hearly]; [left | right; done].
  simpl. split; [done |]. split; [done |]. split; [done |].
  assert (Hgt : t - next_fire tk <
                period tk * N.succ ((t - next_fire tk) / period tk))
    by (apply N.mul_succ_div_gt; lia).
  rewrite N.add_1_r. rewrite N.mul_succ_r in *.
  revert Hgt. generalize (period tk * ((t - next_fire tk) / period tk)).
  intros m Hgt. split; lia.
Qed.

Context {D : Type} (fastrand : nat → bool).

(** What [select] does at the head of the loop, where no tick waits in the
    channel: time does not go back, nothing is sent, and a tick is taken at
    or after the time it was due, either before the deadline or, when the
    deadline has passed as well, because the random choice fell on it. *)
Lemma select_cases (tk tk' : Ticker) (ctx : Context) (w w' : World D) (chosen : Selected) :
  0 < period tk →
  pending tk = false →
  select fastrand tk ctx w = (chosen, tk', w') →
  daemon w' = daemon w ∧ trace w' = trace w ∧ now w ≤ now w' ∧
  match chosen with
  | Tick =>
      pending tk' = false ∧ period tk' = period tk ∧
      next_fire tk ≤ now w' ∧
      next_fire tk + period tk ≤ next_fire tk' ∧
      ((now w' < Deadline ctx ∧ flips w' = flips w) ∨
       (Deadline ctx ≤ now w' ∧ fastrand (flips w) = false ∧ flips w' = S (flips w)))
  | Done => Deadline ctx ≤ now w'
  end.
Proof.
  intros Hperiod Hpending. unfold select, ctx_done.
  destruct (observe_cases (now w) tk Hperiod)
    as [(Hdue & Hp1 & Hper1 & Hnext1 & Hafter1) | (Hearly & ->)].
  - rewrite Hp1. simpl.
    destruct (observe_cases (now w) (observe (now w) tk))
      as [(Hdue2 & _) | (_ & ->)]; [lia | lia |].
    rewrite Hp1. simpl.
    destruct (N.leb_spec (Deadline ctx) (now w)) as [Hdone | Hnot].
    + destruct (fastrand (flips w)) eqn:Hrand; intros [= <- <- <-]; simpl.
      * repeat split; lia.
      * repeat split; try done; lia.
    + intros [= <- <- <-]; simpl.
      repeat split; try done; lia.
  - rewrite Hpending. simpl.
    destruct (N.leb_spec (Deadline ctx) (now w)) as [Hdone | Hnot].
    + destruct (observe_cases (now w) tk Hperiod)
        as [(Hdue2 & _) | (_ & ->)]; [lia |].
      rewrite Hpending. simpl. intros [= <- <- <-]; simpl.
      repeat split; lia.
    + destruct (observe_cases (N.min (next_fire tk) (Deadline ctx)) tk Hperiod)
        as [(Hdue & Hp1 & Hper1 & Hnext1 & Hafter1) | (Hearly2 & ->)].
      * rewrite Hp1. simpl.
        destruct (N.leb_spec (Deadline ctx) (N.min (next_fire tk) (Deadline ctx)))
          as [Hdone | Hnot2].
        -- destruct (fastrand (flips w)) eqn:Hrand; intros [= <- <- <-]; simpl.
           ++ repeat split; lia.
           ++ repeat split; try done; lia.
        -- intros [= <- <- <-]; simpl.
           repeat split; try done; lia.
      * rewrite Hpending. simpl. intros [= <- <- <-]; simpl.
        repeat split; lia.
Qed.

(** A ticker that is due exactly at [t]. *)
Lemma observe_on_time (tk : Ticker) :
  0 < period tk →
  observe (next_fire tk) tk =
    {| period := period tk; next_fire := next_fire tk + period tk; pending := true |}.
Proof.
  intros Hperiod. unfold observe. rewrite N.leb_refl.
  rewrite N.sub_diag, N.Div0.div_0_l. f_equal. lia.
Qed.

Lemma observe_early (t : N) (tk : Ticker) :
  t < next_fire tk → observe t tk = tk.
Proof.
  intros Hearly. unfold observe.
  destruct (N.leb_spec (next_fire tk) t); [lia | reflexivity].
Qed.

(** When the loop is back at [select] before the next tick is due, the
    tick is taken at the very time it is due, and the deadline is taken
    only when the next tick is due no earlier than the deadline. *)
Lemma select_on_time (tk tk' : Ticker) (ctx : Context) (w w' : World D) (chosen : Selected) :
  0 < period tk →
  pending tk = false →
  now w ≤ next_fire tk →
  select fastrand tk ctx w = (chosen, tk', w') →
  match chosen with
  | Tick => now w' = next_fire tk ∧ next_fire tk' = next_fire tk + period tk
  | Done => Deadline ctx ≤ next_fire tk
  end.
Proof.
  intros Hperiod Hpending Hnow. unfold select, ctx_done.
  destruct (N.eq_dec (now w) (next_fire tk)) as [Heq | Hne].
  - rewrite Heq, (observe_on_time tk Hperiod). simpl.
    rewrite observe_early by (simpl; lia). simpl.
    destruct (N.leb_spec (Deadline ctx) (next_fire tk)) as [Hdone | Hnot].
    + destruct (fastrand (flips w)); intros [= <- <- <-]; simpl; [lia | done].
    + intros [= <- <- <-]; simpl. done.
  - rewrite (observe_early (now w) tk) by lia. rewrite Hpending. simpl.
    destruct (N.leb_spec (Deadline ctx) (now w)) as [Hdone | Hnot].
    + rewrite (observe_early (now w) tk) by lia. rewrite Hpending. simpl.
      intros [= <- <- <-]. lia.
    + destruct (N.le_gt_cases (next_fire tk) (Deadline ctx)) as [Hfirst | Hfirst].
      * rewrite N.min_l by lia. rewrite (observe_on_time tk Hperiod). simpl.
        destruct (N.leb_spec (Deadline ctx) (next_fire tk)) as [Hdone | Hnot2].
        -- destruct (fastrand (flips w)); intros [= <- <- <-]; simpl; [lia | done].
        -- intros [= <- <- <-]; simpl. done.
      * rewrite N.min_r by lia. rewrite (observe_early (Deadline ctx) tk) by lia.
        rewrite Hpending. simpl. intros [= <- <- <-]. lia.
Qed.

End Ticking.

Section Lists.

Context {A : Type} (P : A → Prop).


End Lists.

Section Starting.

Context {D : Type} (client : Client D) (fastrand : nat → bool).

Lemma select_trace (tk : Ticker) (ctx : Context) (w : World D) :
  trace (snd (select fastrand tk ctx w)) = trace w.
Proof.
  unfold select.
  repeat match goal with |- context [if ?b then _ else _] => destruct b end;
    reflexivity.
Qed.

(** The loop sends inspections only; all come back without error, except
    possibly the last one, and then the loop has returned its error. *)
Lemma poll_trace (fuel : nat) (ctx : Context) (containerID : string)
    (tk : Ticker) (w : World D) :
  let run := poll client fastrand fuel ctx containerID tk w in
  ∃ oks : list Event,
    Forall (fun ev => ∃ sent,
              ev = Request (CallContainerInspect containerID) ctx sent None) oks ∧
    ((trace (snd run) = trace w ++ oks ∧
      ∀ cause, fst run ≠ Some (Some (start_failed containerID cause))) ∨
     (∃ sent cause,
        trace (snd run) =
          trace w ++ oks ++
            [Request (CallContainerInspect containerID) ctx sent (Some cause)] ∧
        fst run = Some (Some (start_failed containerID cause)))).
Proof.
  revert tk w. induction fuel as [| fuel IH]; intros tk w; simpl.
  - exists []. split; [constructor |]. left. rewrite app_nil_r.
    split; [reflexivity | intros cause; unfold ret; simpl; discriminate].
  - unfold bind, request.
    pose proof (select_trace tk ctx w) as Hsel.
    destruct (select fastrand tk ctx w) as [[chosen tk'] w1]. simpl in Hsel.
    destruct chosen.
    + simpl.
      destruct (result (ContainerInspect client ctx (now w1) containerID (daemon w1)))
        as [state | cause] eqn:Hinspect.
      * destruct (Running (State state)).
        -- simpl. exists [Request (CallContainerInspect containerID) ctx (now w1) None].
           split; [repeat constructor; by eexists |]. left. rewrite Hsel.
           split; [reflexivity | intros cause; unfold ret; simpl; discriminate].
        -- match goal with |- context [poll _ _ _ _ _ _ ?w2] =>
             destruct (IH tk' w2) as (oks & Hoks & Hrun) end.
           simpl in Hrun.
           exists (Request (CallContainerInspect containerID) ctx (now w1) None :: oks).
           split; [constructor; [by eexists | done] |].
           destruct Hrun as [[Htrace Hres] | (sent & cause & Htrace & Hres)].
           ++ left. split; [| exact Hres].
              rewrite Htrace, Hsel, <- app_assoc. reflexivity.
           ++ right. exists sent, cause. split; [| exact Hres].
              rewrite Htrace, Hsel, <- app_assoc. reflexivity.
      * simpl. exists []. split; [constructor |]. right.
        exists (now w1), cause. rewrite Hsel. done.
    + simpl. exists []. split; [constructor |]. left.
      rewrite Hsel, app_nil_r. split; [reflexivity | intros cause; unfold ret; simpl; discriminate].
Qed.

Lemma StartContainer_unfold (fuel : nat) (containerID : string) (w : World D) :
  StartContainer client fastrand fuel containerID w =
    match result (starting_of client containerID w) with
    | inr cause =>
        (Some (Some (start_failed containerID cause)), started client containerID w)
    | inl _ =>
        poll client fastrand fuel (start_ctx w) containerID
          (first_ticker client containerID w) (started client containerID w)
    end.
Proof.
  unfold StartContainer, bind, WithTimeout, request, NewTicker,
    started, first_ticker, start_request, starting_of, start_ctx.
  simpl. destruct (result _); reflexivity.
Qed.


End Starting.

(** ** Deadlines *)

Section Deadlines.

Context {D : Type} (client : Client D).
Context (NewPort : string → string → Port + Foreign).
Context (range_order : gmap string string → list (string * string)).
Context (fastrand : nat → bool).

(** Runs an operation that sends one request and names what came back. *)
Ltac single_request :=
  unfold bind, WithTimeout, request; simpl;
  destruct (result _); eexists; reflexivity.

Lemma StartContainer_governed (fuel : nat) (containerID : string) (w : World D) :
  ∃ rest : list Event,
    trace (snd (StartContainer client fastrand fuel containerID w)) =
      trace w ++ start_request client containerID w :: rest ∧
    governed_by (start_ctx w) (start_request client containerID w :: rest).
Proof.
  rewrite StartContainer_unfold.
  destruct (result (starting_of client containerID w)) as [[] | refused].
  - destruct (poll_trace client fastrand fuel (start_ctx w) containerID
                (first_ticker client containerID w) (started client containerID w))
      as (oks & Hoks & Hrun).
    simpl in Hrun.
    assert (Hgov : governed_by (start_ctx w) oks).
    { eapply Forall_impl; [exact Hoks |]. intros ev [t ->] c [= <-]. done. }
    destruct Hrun as [[Htrace _] | (t & why & Htrace & _)].
    + exists oks. rewrite Htrace, <- app_assoc.
      split; [reflexivity |]. constructor; [| exact Hgov]. by intros c [= <-].
    + eexists. rewrite Htrace, <- app_assoc.
      split; [reflexivity |]. constructor; [by intros c [= <-] |].
      apply Forall_app. split; [exact Hgov |].
      constructor; [| constructor]. by intros c [= <-].
  - exists []. simpl. split; [reflexivity |].
    constructor; [| constructor]. by intros c [= <-].
Qed.

(** C9: every operation sends its requests under a context of its own,
    made when the operation starts, with the timeout of the operation:
    10 s to connect, verify, create, start, remove a container and remove
    an image, 60 s to pull.  Inside [PullImage] the listing is sent under
    the 10 s context of the check, made when [PullImage] is called, and
    the pull under a 60 s context made when the check has returned. *)
Theorem every_operation_owns_its_deadline
    (dockerImage containerName containerID : string)
    (ports : gmap string string) (fuel : nat) (w : World D) :
  let ten := {| created := now w; timeout := 10000 |} in
  (NewClientWithOpts client (daemon w) = None →
   ∃ failure, trace (snd (CreateClient client w)) =
                trace w ++ [Request CallPing ten (now w) failure]) ∧
  (∃ failure, trace (snd (VerifyHaveImage client dockerImage w)) =
                trace w ++ [Request (CallImageList dockerImage) ten (now w) failure]) ∧
  (∀ e, fst (VerifyHaveImage client dockerImage w) = Some e →
     let w1 := snd (VerifyHaveImage client dockerImage w) in
     let sixty := {| created := now w1; timeout := 60000 |} in
     now w1 = now w + took (listing_of client dockerImage w) ∧
     ∃ listed pulled reads,
       trace (snd (PullImage client dockerImage w)) =
         trace w ++
           Request (CallImageList dockerImage) ten (now w) listed ::
           Request (CallImagePull dockerImage {| All := false |}) sixty (now w1) pulled ::
           reads ∧
       Forall (fun ev => event_ctx ev = None) reads) ∧
  (∀ pm, range_ports NewPort (range_order ports) ∅ = inl pm →
     ∃ failure,
       trace (snd (CreateContainer client NewPort range_order
                     dockerImage containerName ports w)) =
         trace w ++
           [Request
              (CallContainerCreate {| Image := dockerImage; Tty := false |}
                 {| PortBindings := pm; AutoRemove := true |} None None containerName)
              ten (now w) failure]) ∧
  (∃ failure rest,
     trace (snd (StartContainer client fastrand fuel containerID w)) =
       trace w ++
         Request (CallContainerStart containerID {| CheckpointID := ""; CheckpointDir := "" |})
           ten (now w) failure :: rest ∧
     governed_by ten rest) ∧
  (∃ failure, trace (snd (RemoveContainer client containerID w)) =
                trace w ++
                  [Request (CallContainerRemove containerID
                              {| RemoveVolumes := true; Force := true |})
                     ten (now w) failure]) ∧
  (∃ failure, trace (snd (RemoveImage client dockerImage w)) =
                trace w ++
                  [Request (CallImageRemove dockerImage
                              {| ImageForce := false; PruneChildren := false |})
                     ten (now w) failure]).
Proof.
  intros ten. repeat apply conj.
  - intros Hclient. unfold CreateClient. rewrite Hclient. single_request.
  - rewrite VerifyHaveImage_world. simpl. eexists. reflexivity.
  - intros e Hfail w1 sixty. subst w1 sixty.
    pose proof (PullImage_absent client dockerImage w e Hfail) as Hrun.
    simpl in Hrun. rewrite VerifyHaveImage_world in *. simpl in *.
    split; [reflexivity |].
    destruct (result (pulling_of client dockerImage _)) as [body | cause].
    + destruct Hrun as (reads & Hrun & _ & _ & Hctx).
      rewrite Hrun. simpl. rewrite <- app_assoc.
      do 2 eexists. exists reads. split; [reflexivity | exact Hctx].
    + rewrite Hrun. simpl. rewrite <- app_assoc.
      do 2 eexists. exists []. split; [reflexivity | constructor].
  - intros pm Hpm. rewrite (CreateContainer_sends client NewPort range_order _ _ _ pm w Hpm).
    simpl. eexists. reflexivity.
  - destruct (StartContainer_governed fuel containerID w) as (rest & Htrace & Hgov).
    rewrite Htrace. do 2 eexists. split; [reflexivity |].
    by apply Forall_cons in Hgov as [_ Hgov].
  - unfold RemoveContainer. single_request.
  - unfold RemoveImage. single_request.
Qed.

End Deadlines.

(** * The theorems at work on the scripted daemon *)

Section Checks.

Context (NewPort : string → string → Port + Foreign).

Lemma all_ports_valid_checked (ports : gmap string string) :
  forallb (fun entry => match NewPort "tcp" entry.2 with inl _ => true | inr _ => false end)
    (map_to_list ports) = true →
  all_ports_valid NewPort ports.
Proof.
  intros Hcheck h c Hentry.
  rewrite forallb_forall in Hcheck.
  apply elem_of_map_to_list, list_elem_of_In in Hentry.
  specialize (Hcheck _ Hentry). simpl in Hcheck.
  destruct (NewPort "tcp" c) as [p |]; [by exists p | discriminate].
Qed.

End Checks.

Module Runs.

Import Fixtures.

Lemma map_to_list_visits_once (m : gmap string string) :
  map_to_list m ≡ₚ map_to_list m.
Proof. reflexivity. Defined.

Lemma always_done_is_fair : fair (fun _ => true).
Proof. intros n. exists n. split; [apply Nat.le_refl | reflexivity]. Defined.

Example NewPort_accepts_80 : NewPort "tcp" "80" = inl "80/tcp".
Proof. reflexivity. Qed.

Example NewPort_rejects_abc :
  NewPort "tcp" "abc" = inr "strconv.ParseUint: parsing abc: invalid syntax".
Proof. reflexivity. Qed.

Example stuck_container_is_polled_99_times :
  let run := StartContainer (scripted stuck) (fun _ => true) 200 "c1" boot in
  fst run = Some (Some (New ErrTimeout)) ∧
  now (snd run) = 10000 ∧
  length (filter (fun ev => is_inspect ev = true) (trace (snd run))) = 99%nat.
Proof. vm_compute. done. Qed.

Example healthy_container_starts :
  fst (StartContainer (scripted healthy) (fun _ => true) 10 "c1" boot) = Some None.
Proof. reflexivity. Qed.

(** *** Images *)

Lemma PullImage_present_short_circuits_witness :
  fst (VerifyHaveImage (scripted healthy) "hashicorp/http-echo:latest" boot) = None ∧
  PullImage (scripted healthy) "hashicorp/http-echo:latest" boot =
    (None, snd (VerifyHaveImage (scripted healthy) "hashicorp/http-echo:latest" boot)).
Proof.
  split; [reflexivity |].
  apply (PullImage_present_short_circuits (scripted healthy)
           "hashicorp/http-echo:latest" boot).
  reflexivity.
Defined.

Lemma PullImage_drains_and_tells_failures_apart_witness :
  fst (VerifyHaveImage (scripted absent) "hashicorp/http-echo:latest" boot) =
    Some (Errorf_w (New ErrImageNotPresent) "hashicorp/http-echo:latest") ∧
  ∃ reads : list Event,
    bytes_read reads = [Byte.x78; Byte.x79; Byte.x7a] ∧
    last reads = Some (Read ReadEOF).
Proof.
  split; [reflexivity |].
  destruct (PullImage_drains_and_tells_failures_apart (scripted absent)
              "hashicorp/http-echo:latest" boot _ eq_refl) as [_ Hdrain].
  destruct (Hdrain _ eq_refl) as (reads & _ & Hbytes & Hlast & _).
  exists reads. split; [exact Hbytes | exact Hlast].
Defined.

Lemma PullImage_listing_error_still_pulls_witness :
  result (listing_of (scripted unreachable_listing) "some/image:tag" boot) =
    inr "Cannot connect to the Docker daemon" ∧
  fst (PullImage (scripted unreachable_listing) "some/image:tag" boot) = None ∧
  ∃ rest : list Event,
    trace (snd (PullImage (scripted unreachable_listing) "some/image:tag" boot)) =
      trace (snd (VerifyHaveImage (scripted unreachable_listing) "some/image:tag" boot)) ++
        pull_request (scripted unreachable_listing) "some/image:tag"
          (snd (VerifyHaveImage (scripted unreachable_listing) "some/image:tag" boot))
        :: rest.
Proof.
  split; [reflexivity |].
  destruct (PullImage_listing_error_still_pulls (scripted unreachable_listing)
              "some/image:tag" boot _ eq_refl) as (_ & Hpull & _ & Hnil).
  split; [exact (Hnil _ eq_refl eq_refl) |].
  destruct Hpull as (rest & Htrace & _). exists rest. exact Htrace.
Defined.

(** *** Containers *)

Lemma CreateContainer_invalid_port_aborts_witness :
  one_bad_port !! "8080" = Some "abc" ∧
  ∃ err,
    CreateContainer (scripted healthy) NewPort map_to_list
      "hashicorp/http-echo:latest" "test-1" one_bad_port boot =
      (("", Some err), boot) ∧
    errors_Is err ErrPortMap = true.
Proof.
  split; [reflexivity |].
  destruct (CreateContainer_invalid_port_aborts (scripted healthy) NewPort map_to_list
              map_to_list_visits_once "hashicorp/http-echo:latest" "test-1"
              one_bad_port boot "8080" "abc" _ ltac:(reflexivity) eq_refl)
    as (cause & err & Hrun & _ & His & _).
  exists err. split; [exact Hrun | exact His].
Defined.

Lemma two_hosts_one_port_valid : all_ports_valid NewPort two_hosts_one_port.
Proof. apply all_ports_valid_checked. vm_compute. reflexivity. Defined.

Lemma CreateContainer_port_bindings_witness :
  all_ports_valid NewPort two_hosts_one_port ∧
  ∃ pm : gmap string (list PortBinding),
    trace (snd (CreateContainer (scripted healthy) NewPort map_to_list
                  "hashicorp/http-echo:latest" "test-1" two_hosts_one_port boot)) =
      [create_request (scripted healthy) "hashicorp/http-echo:latest" "test-1" pm boot] ∧
    ∀ p bs, pm !! p = Some bs → length bs = 1%nat.
Proof.
  split; [exact two_hosts_one_port_valid |].
  destruct (CreateContainer_port_bindings (scripted healthy) NewPort map_to_list
              map_to_list_visits_once "hashicorp/http-echo:latest" "test-1"
              two_hosts_one_port boot two_hosts_one_port_valid)
    as (pm & Htrace & _ & Hone).
  exists pm. split; [exact Htrace |].
  intros p bs Hbs. exact (proj1 (Hone p bs Hbs)).
Defined.

(** C6, as stated, fails: with two host ports on container port 80, the
    port map that is sent binds ["80/tcp"] to one of them, and the entry of
    the other host port has no binding with its own host port. *)
Lemma CreateContainer_port_bindings_counterexample :
  all_ports_valid NewPort two_hosts_one_port ∧
  ∃ pm : gmap string (list PortBinding),
    trace (snd (CreateContainer (scripted healthy) NewPort map_to_list
                  "hashicorp/http-echo:latest" "test-1" two_hosts_one_port boot)) =
      [create_request (scripted healthy) "hashicorp/http-echo:latest" "test-1" pm boot] ∧
    ¬ (∀ h c p, two_hosts_one_port !! h = Some c → NewPort "tcp" c = inl p →
         pm !! p = Some [{| HostIP := "0.0.0.0"; HostPort := h |}]).
Proof.
  split; [exact two_hosts_one_port_valid |].
  destruct (range_ports NewPort (map_to_list two_hosts_one_port) ∅)
    as [pm | cause] eqn:Hpm; [| by vm_compute in Hpm].
  exists pm. split.
  - rewrite (CreateContainer_sends (scripted healthy) NewPort map_to_list
               "hashicorp/http-echo:latest" "test-1" two_hosts_one_port pm boot Hpm).
    reflexivity.
  - intros Hall.
    pose proof (Hall "8080" "80" "80/tcp" ltac:(reflexivity) eq_refl) as H1.
    pose proof (Hall "9090" "80" "80/tcp" ltac:(reflexivity) eq_refl) as H2.
    rewrite H1 in H2. discriminate.
Qed.

Lemma CreateContainer_colliding_ports_witness :
  all_ports_valid NewPort two_hosts_one_port ∧
  two_hosts_one_port !! "8080" = Some "80" ∧
  two_hosts_one_port !! "9090" = Some "80" ∧
  ∃ (pm : gmap string (list PortBinding)) (h : string),
    range_ports NewPort (map_to_list two_hosts_one_port) ∅ = inl pm ∧
    pm !! "80/tcp" = Some [{| HostIP := "0.0.0.0"; HostPort := h |}] ∧
    (h ≠ "8080" ∨ h ≠ "9090").
Proof.
  split; [exact two_hosts_one_port_valid |].
  split; [reflexivity |]. split; [reflexivity |].
  destruct (CreateContainer_colliding_ports (scripted healthy) NewPort map_to_list
              map_to_list_visits_once "hashicorp/http-echo:latest" "test-1"
              two_hosts_one_port boot "8080" "9090" "80" "80/tcp"
              two_hosts_one_port_valid ltac:(discriminate)
              ltac:(reflexivity) ltac:(reflexivity) eq_refl)
    as (pm & h & Hpm & _ & _ & Hbound & Hlost & _).
  exists pm, h. split; [exact Hpm |]. split; [exact Hbound | exact Hlost].
Defined.

(** C10, as stated, fails: two host ports share the valid container port
    80, and the translation fails all the same, on the third entry. *)
Lemma CreateContainer_colliding_ports_counterexample :
  "1" ≠ "2" ∧
  with_a_bad_port !! "1" = Some "80" ∧
  with_a_bad_port !! "2" = Some "80" ∧
  NewPort "tcp" "80" = inl "80/tcp" ∧
  ∃ err,
    CreateContainer (scripted healthy) NewPort map_to_list
      "hashicorp/http-echo:latest" "test-1" with_a_bad_port boot =
      (("", Some err), boot) ∧
    errors_Is err ErrPortMap = true.
Proof.
  split; [discriminate |]. do 3 (split; [reflexivity |]).
  eexists. split; [vm_compute; reflexivity | reflexivity].
Qed.

(** Which host port is kept depends on the order of the visit. *)
Example colliding_ports_follow_the_order :
  (∃ pm, range_ports NewPort [("8080", "80"); ("9090", "80")] ∅ = inl pm ∧
         pm !! "80/tcp" = Some (binding "9090")) ∧
  (∃ pm, range_ports NewPort [("9090", "80"); ("8080", "80")] ∅ = inl pm ∧
         pm !! "80/tcp" = Some (binding "8080")).
Proof.
  split; eexists; (split; [reflexivity |]); reflexivity.
Qed.

(** *** Starting *)


End Runs.

(** * Further properties *)

(** ** Starting a container, whatever the daemon does *)

Section StartingAnyDaemon.

Context {D : Type} (client : Client D) (fastrand : nat → bool).

Lemma spaced_weaken (containerID : string) (ctx : Context) (every : Duration)
    (evs : list Event) :
  ∀ since since', since' ≤ since →
    spaced containerID ctx every since evs →
    spaced containerID ctx every since' evs.
Proof.
  induction evs as [| ev rest IH]; intros since since' Hle; simpl; [done |].
  intros [(sent & failure & -> & Hsent) Hrest]. split.
  - exists sent, failure. split; [done | lia].
  - apply (IH (since + every)); [lia | done].
Qed.

Lemma spaced_lookup (containerID : string) (ctx : Context) (every : Duration)
    (evs : list Event) :
  ∀ since k ev,
    spaced containerID ctx every since evs →
    evs !! k = Some ev →
    ∃ sent failure,
      ev = Request (CallContainerInspect containerID) ctx sent failure ∧
      since + every * N.of_nat k ≤ sent.
Proof.
  induction evs as [| ev0 rest IH]; intros since k ev; simpl; [done |].
  intros [(sent & failure & -> & Hsent) Hrest]. destruct k as [| k]; simpl.
  - intros [= <-]. exists sent, failure. split; [done | lia].
  - intros Hk. destruct (IH _ _ _ Hrest Hk) as (sent' & failure' & -> & Hsent').
    exists sent', failure'. split; [done | lia].
Qed.

(** One run of the loop, from a ticker with no tick waiting: what it
    sends, how the sends are spaced, and what each result tells. *)
Lemma poll_run (containerID : string) (ctx : Context) :
  ∀ (fuel : nat) (tk : Ticker) (w w' : World D) (r : option (option error)),
    period tk = 100 →
    pending tk = false →
    poll client fastrand fuel ctx containerID tk w = (r, w') →
    ∃ polls : list Event,
      trace w' = trace w ++ polls ∧
      spaced containerID ctx 100 (next_fire tk) polls ∧
      now w ≤ now w' ∧
      match r with
      | None => True
      | Some None =>
          ∃ front sent d state,
            polls = front ++ [Request (CallContainerInspect containerID) ctx sent None] ∧
            result (ContainerInspect client ctx sent containerID d) = inl state ∧
            Running (State state) = true
      | Some (Some err) =>
          (err = New ErrTimeout ∧ Deadline ctx ≤ now w') ∨
          (∃ front sent cause,
             err = start_failed containerID cause ∧
             polls = front ++
               [Request (CallContainerInspect containerID) ctx sent (Some cause)])
      end.
Proof.
  induction fuel as [| fuel IH]; intros tk w w' r Hperiod Hpending Hrun.
  - injection Hrun as <- <-. exists []. rewrite app_nil_r. done.
  - simpl in Hrun. unfold bind, request in Hrun.
    destruct (select fastrand tk ctx w) as [[chosen tk'] w1] eqn:Hsel.
    pose proof (select_cases fastrand tk tk' ctx w w1 chosen
                  ltac:(lia) Hpending Hsel) as (_ & Htrace1 & Hnow1 & Hcase).
    destruct chosen.
    + destruct Hcase as (Hpending' & Hperiod' & Hdue & Hnext & _).
      destruct (result (ContainerInspect client ctx (now w1) containerID (daemon w1)))
        as [state | cause] eqn:Hinspect.
      * destruct (Running (State state)) eqn:Hrunning.
        -- injection Hrun as <- <-. simpl.
           exists [Request (CallContainerInspect containerID) ctx (now w1) None].
           rewrite Htrace1. split; [done |]. split.
           { simpl. split; [| done]. eauto. }
           split; [lia |].
           exists [], (now w1), (daemon w1), state. done.
        -- assert (Hperiod100 : period tk' = 100) by lia.
           destruct (IH _ _ _ _ Hperiod100 Hpending' Hrun)
             as (polls & Htrace & Hspaced & Hnow & Hres).
           simpl in Htrace, Hnow.
           exists (Request (CallContainerInspect containerID) ctx (now w1) None :: polls).
           split; [by rewrite Htrace, Htrace1, <- app_assoc |]. split.
           { simpl. split; [eauto |].
             apply (spaced_weaken _ _ _ _ (next_fire tk')); [lia | done]. }
           split; [lia |].
           destruct r as [[err |] |]; [| | done].
           ++ destruct Hres as [Htimeout | (front & sent & cause & -> & ->)].
              ** by left.
              ** right. eexists (_ :: front), sent, cause. done.
           ++ destruct Hres as (front & sent & d & st & -> & Hres).
              eexists (_ :: front), sent, d, st. done.
      * injection Hrun as <- <-. simpl.
        exists [Request (CallContainerInspect containerID) ctx (now w1) (Some cause)].
        rewrite Htrace1. split; [done |]. split.
        { simpl. split; [| done]. eauto. }
        split; [lia |].
        right. exists [], (now w1), cause. done.
    + injection Hrun as <- <-. exists []. rewrite Htrace1, app_nil_r.
      split; [done |]. split; [done |]. split; [done |]. by left.
Qed.

(** [ErrTimeout] comes from the loop, once the deadline has come. *)
Lemma StartContainer_timeout_is_late (fuel : nat) (containerID : string)
    (w w' : World D) :
  StartContainer client fastrand fuel containerID w =
    (Some (Some (New ErrTimeout)), w') →
  result (starting_of client containerID w) = inl tt ∧ now w + 10000 ≤ now w'.
Proof.
  rewrite StartContainer_unfold.
  destruct (result (starting_of client containerID w)) as [[] | refused] eqn:Hstart;
    [| discriminate].
  intros Hrun. split; [done |].
  destruct (poll_run containerID (start_ctx w) fuel (first_ticker client containerID w)
                _ _ _ eq_refl eq_refl Hrun)
    as (polls & _ & _ & _ & [[_ Hlate] | (front & sent & cause & Herr & _)]);
    [| discriminate].
  unfold Deadline, start_ctx, dockerStartContainerTimeout, Second in Hlate.
  simpl in Hlate. lia.
Qed.

(** X1: an error returned by [StartContainer] is either [ErrTimeout], and
    then the start request was accepted and the deadline, ten seconds after
    the call, has come; or it is the start-failed error joined with the
    failure of the last request sent, and then it is [ErrStartingContainer]
    and not [ErrTimeout]. *)
Theorem StartContainer_error_kinds (fuel : nat) (containerID : string)
    (w w' : World D) (err : error) :
  StartContainer client fastrand fuel containerID w = (Some (Some err), w') →
  (err = New ErrTimeout ∧
   result (starting_of client containerID w) = inl tt ∧
   now w + 10000 ≤ now w') ∨
  (∃ (cause : Foreign) (front : list Event) (call : Call) (sent : N),
     err = start_failed containerID cause ∧
     trace w' = trace w ++ front ++ [Request call (start_ctx w) sent (Some cause)] ∧
     errors_Is err ErrStartingContainer = true ∧
     errors_Is err ErrTimeout = false).
Proof.
  rewrite StartContainer_unfold.
  destruct (result (starting_of client containerID w)) as [[] | refused] eqn:Hstart.
  - intros Hrun.
    destruct (poll_run containerID (start_ctx w) fuel (first_ticker client containerID w)
                _ _ _ eq_refl eq_refl Hrun)
      as (polls & Htrace & _ & _ & [[-> Hlate] | (front & sent & cause & -> & ->)]).
    + left. split; [done |]. split; [done |].
      unfold Deadline, start_ctx, dockerStartContainerTimeout, Second in Hlate.
      simpl in Hlate. lia.
    + right. exists cause, (start_request client containerID w :: front),
        (CallContainerInspect containerID), sent.
      split; [done |]. split; [| done].
      rewrite Htrace. simpl. by rewrite <- app_assoc.
  - intros [= <- <-]. right.
    exists refused, [], (CallContainerStart containerID
                           {| CheckpointID := ""; CheckpointDir := "" |}), (now w).
    split; [done |]. split; [| done].
    unfold started, start_request. simpl. by rewrite Hstart.
Qed.

(** X2: [StartContainer] returns nil only when the start request was
    accepted and the last thing it sent is an inspection that came back
    reporting the container running; that inspection was sent no earlier
    than 100 ms after the start request was answered. *)
Theorem StartContainer_success_needs_running_inspection (fuel : nat)
    (containerID : string) (w w' : World D) :
  StartContainer client fastrand fuel containerID w = (Some None, w') →
  result (starting_of client containerID w) = inl tt ∧
  ∃ (front : list Event) (sent : N) (d : D) (state : InspectResponse),
    trace w' =
      trace w ++ start_request client containerID w :: front ++
        [Request (CallContainerInspect containerID) (start_ctx w) sent None] ∧
    now w + took (starting_of client containerID w) + 100 ≤ sent ∧
    result (ContainerInspect client (start_ctx w) sent containerID d) = inl state ∧
    Running (State state) = true.
Proof.
  rewrite StartContainer_unfold.
  destruct (result (starting_of client containerID w)) as [[] | refused] eqn:Hstart;
    [| discriminate].
  intros Hrun. split; [done |].
  destruct (poll_run containerID (start_ctx w) fuel (first_ticker client containerID w)
                _ _ _ eq_refl eq_refl Hrun)
    as (polls & Htrace & Hspaced & _ & front & sent & d & state & -> & Hanswer & Hrunning).
  exists front, sent, d, state.
  split; [rewrite Htrace; simpl; by rewrite <- app_assoc |].
  split; [| done].
  destruct (spaced_lookup _ _ _ _ _ (length front) _ Hspaced
              (list_lookup_middle front [] _ _ eq_refl))
    as (sent' & failure & [= <- <-] & Hsent).
  simpl in Hsent. lia.
Qed.

(** X3: whatever the daemon answers, [StartContainer] sends the start
    request and then inspections of the container only, all under its own
    context; none when the start request is refused; the inspection at
    position [k] (from 0) is sent no earlier than [k + 1] times 100 ms
    after the start request was answered, so at most 99 inspections are
    sent before the deadline. *)
Theorem StartContainer_inspections_are_spaced (fuel : nat)
    (containerID : string) (w : World D) :
  ∃ polls : list Event,
    trace (snd (StartContainer client fastrand fuel containerID w)) =
      trace w ++ start_request client containerID w :: polls ∧
    (∀ cause, result (starting_of client containerID w) = inr cause → polls = []) ∧
    ∀ k ev, polls !! k = Some ev →
      ∃ sent failure,
        ev = Request (CallContainerInspect containerID) (start_ctx w) sent failure ∧
        now w + took (starting_of client containerID w) + 100 * N.of_nat (S k) ≤ sent ∧
        (sent < now w + 10000 → (k < 99)%nat).
Proof.
  rewrite StartContainer_unfold.
  destruct (result (starting_of client containerID w)) as [[] | refused] eqn:Hstart.
  - destruct (poll client fastrand fuel (start_ctx w) containerID
                (first_ticker client containerID w) (started client containerID w))
      as [r w'] eqn:Hrun.
    destruct (poll_run containerID (start_ctx w) fuel (first_ticker client containerID w)
                _ _ _ eq_refl eq_refl Hrun)
      as (polls & Htrace & Hspaced & _).
    exists polls. simpl.
    split; [rewrite Htrace; simpl; by rewrite <- app_assoc |].
    split; [discriminate |].
    intros k ev Hk.
    destruct (spaced_lookup _ _ _ _ _ _ _ Hspaced Hk) as (sent & failure & -> & Hsent).
    simpl in Hsent. exists sent, failure. split; [done |]. lia.
  - exists []. simpl. split; [done |]. split; [done |]. intros k ev. by destruct k.
Qed.

(** From a ticker whose next tick is due no more than [a] periods short of
    the deadline, and with a random choice that falls on the deadline
    within [b] draws, the loop returns within [a + b + 1] iterations,
    whatever the daemon answers. *)
Lemma poll_returns (containerID : string) (ctx : Context) (n : nat) :
  ∀ (a b : nat) (tk : Ticker) (w : World D),
    (a + b ≤ n)%nat →
    period tk = 100 →
    pending tk = false →
    Deadline ctx < next_fire tk + N.of_nat a * 100 →
    (∃ m, (flips w ≤ m < flips w + b)%nat ∧ fastrand m = true) →
    ∃ (r : option error) (w' : World D),
      ∀ fuel, (n < fuel)%nat →
        poll client fastrand fuel ctx containerID tk w = (Some r, w').
Proof.
  induction n as [| n IH]; intros a b tk w Hn Hperiod Hpending Ha Hb.
  - destruct Hb as (m & Hm & _). lia.
  - destruct (select fastrand tk ctx w) as [[chosen tk'] w1] eqn:Hsel.
    pose proof (select_cases fastrand tk tk' ctx w w1 chosen
                  ltac:(lia) Hpending Hsel) as (_ & _ & _ & Hcase).
    destruct chosen.
    + destruct Hcase as (Hpending' & Hperiod' & Hdue & Hnext & Hwhich).
      destruct (result (ContainerInspect client ctx (now w1) containerID (daemon w1)))
        as [state | cause] eqn:Hinspect.
      * destruct (Running (State state)) eqn:Hrunning.
        -- eexists _, _. intros [| fuel] Hfuel; [lia |].
           simpl. unfold bind, request. rewrite Hsel, Hinspect, Hrunning.
           reflexivity.
        -- set (w2 := {| now := now w1 +
                           took (ContainerInspect client ctx (now w1) containerID
                                   (daemon w1));
                         daemon :=
                           after (ContainerInspect client ctx (now w1) containerID
                                    (daemon w1));
                         trace := trace w1 ++
                           [Request (CallContainerInspect containerID) ctx (now w1) None];
                         flips := flips w1 |}).
           assert (Hrec : ∃ a' b', (a' + b' ≤ n)%nat ∧
                     Deadline ctx < next_fire tk' + N.of_nat a' * 100 ∧
                     ∃ m, (flips w2 ≤ m < flips w2 + b')%nat ∧ fastrand m = true).
           { destruct Hb as (m & Hm & Hrand).
             destruct Hwhich as [[Hearly Hflips] | (Hlate & Hlost & Hflips)].
             - exists (a - 1)%nat, b. split; [lia |]. split; [lia |].
               exists m. simpl. split; [lia | done].
             - exists a, (b - 1)%nat.
               assert (m ≠ flips w) by congruence.
               split; [lia |]. split; [lia |].
               exists m. simpl. split; [lia | done]. }
           destruct Hrec as (a' & b' & Hn' & Ha' & Hb').
           assert (Hperiod100 : period tk' = 100) by lia.
           destruct (IH a' b' tk' w2 Hn' Hperiod100 Hpending' Ha' Hb')
             as (r & w' & Hrun).
           exists r, w'. intros [| fuel] Hfuel; [lia |].
           simpl. unfold bind, request. rewrite Hsel, Hinspect, Hrunning.
           apply Hrun. lia.
      * eexists _, _. intros [| fuel] Hfuel; [lia |].
        simpl. unfold bind, request. rewrite Hsel, Hinspect. reflexivity.
    + eexists _, _. intros [| fuel] Hfuel; [lia |].
      simpl. unfold bind. rewrite Hsel. reflexivity.
Qed.

(** With a random choice that is fair, [StartContainer] returns, whatever
    the daemon answers, once it has enough iterations at hand. *)
Lemma StartContainer_returns (containerID : string) (w : World D) :
  fair fastrand →
  ∃ (enough : nat) (r : option error) (w' : World D),
    ∀ fuel, (enough ≤ fuel)%nat →
      StartContainer client fastrand fuel containerID w = (Some r, w').
Proof.
  intros Hfair.
  destruct (result (starting_of client containerID w)) as [[] | refused] eqn:Hstart.
  - destruct (Hfair (flips w)) as (m & Hm & Hrand).
    destruct (poll_returns containerID (start_ctx w) (100 + (m - flips w + 1))
                100%nat (m - flips w + 1)%nat
                (first_ticker client containerID w) (started client containerID w))
      as (r & w' & Hrun).
    + lia.
    + reflexivity.
    + reflexivity.
    + unfold Deadline, start_ctx, dockerStartContainerTimeout, Second. simpl. lia.
    + exists m. simpl. split; [lia | done].
    + exists (S (100 + (m - flips w + 1))), r, w'.
      intros fuel Hfuel. rewrite StartContainer_unfold, Hstart. apply Hrun. lia.
  - exists 0%nat, (Some (start_failed containerID refused)),
      (started client containerID w).
    intros fuel _. rewrite StartContainer_unfold, Hstart. reflexivity.
Qed.

(** The loop only adds to the trace. *)
Lemma poll_extends (fuel : nat) (ctx : Context) (containerID : string)
    (tk : Ticker) (w : World D) :
  ∃ rest : list Event,
    trace (snd (poll client fastrand fuel ctx containerID tk w)) = trace w ++ rest.
Proof.
  destruct (poll_trace client fastrand fuel ctx containerID tk w)
    as (oks & _ & [[Htrace _] | (sent & cause & Htrace & _)]); eauto.
Qed.

(** With inspections answered within a period, the loop inspects at every
    tick, at the time of the tick, and returns [ErrTimeout] only when the
    next tick is due at or after the deadline. *)
Lemma poll_on_the_tick (containerID : string) (ctx : Context) :
  prompt client containerID 100 →
  ∀ (fuel : nat) (tk : Ticker) (w w' : World D) (r : option (option error))
    (polls : list Event),
    period tk = 100 →
    pending tk = false →
    now w ≤ next_fire tk →
    poll client fastrand fuel ctx containerID tk w = (r, w') →
    trace w' = trace w ++ polls →
    on_the_tick containerID ctx 100 (next_fire tk) polls ∧
    (r = Some (Some (New ErrTimeout)) →
     Deadline ctx ≤ next_fire tk + 100 * N.of_nat (length polls)).
Proof.
  intros Hprompt.
  induction fuel as [| fuel IH];
    intros tk w w' r polls Hperiod Hpending Hnow Hrun Htrace.
  - injection Hrun as <- <-.
    rewrite <- (app_nil_r (trace w)) in Htrace at 1.
    apply app_inv_head in Htrace. subst polls. split; [exact I | discriminate].
  - simpl in Hrun. unfold bind, request in Hrun.
    destruct (select fastrand tk ctx w) as [[chosen tk'] w1] eqn:Hsel.
    pose proof (select_cases fastrand tk tk' ctx w w1 chosen
                  ltac:(lia) Hpending Hsel) as (_ & Htrace1 & _ & Hcase).
    pose proof (select_on_time fastrand tk tk' ctx w w1 chosen
                  ltac:(lia) Hpending Hnow Hsel) as Htime.
    destruct chosen.
    + destruct Hcase as (Hpending' & Hperiod' & _).
      destruct Htime as [Hat Hnext].
      pose proof (Hprompt ctx (now w1) (daemon w1)) as Hfast.
      destruct (result (ContainerInspect client ctx (now w1) containerID (daemon w1)))
        as [state | cause] eqn:Hinspect.
      * destruct (Running (State state)) eqn:Hrunning.
        -- injection Hrun as <- <-. simpl in Htrace.
           rewrite Htrace1 in Htrace. apply app_inv_head in Htrace. subst polls.
           split; [| discriminate]. simpl. rewrite Hat. eauto.
        -- assert (Hperiod100 : period tk' = 100) by lia.
           match type of Hrun with poll _ _ _ _ _ _ ?w2 = _ =>
             destruct (poll_extends fuel ctx containerID tk' w2) as [rest Hrest];
             rewrite Hrun in Hrest; simpl in Hrest;
             assert (Hpolls : polls =
                       Request (CallContainerInspect containerID) ctx (now w1) None
                       :: rest)
               by (rewrite Htrace, Htrace1, <- app_assoc in Hrest;
                   by apply app_inv_head in Hrest);
             subst polls;
             destruct (IH tk' w2 w' r rest Hperiod100 Hpending'
                         ltac:(simpl; lia) Hrun Hrest) as [Hticks Hlate]
           end.
           rewrite Hnext, Hperiod in Hticks, Hlate.
           split.
           ++ simpl. rewrite Hat in *. eauto.
           ++ intros Hr. specialize (Hlate Hr). simpl length. lia.
      * injection Hrun as <- <-. simpl in Htrace.
        rewrite Htrace1 in Htrace. apply app_inv_head in Htrace. subst polls.
        split; [| discriminate]. simpl. rewrite Hat. eauto.
    + injection Hrun as <- <-.
      rewrite Htrace1 in Htrace.
      rewrite <- (app_nil_r (trace w)) in Htrace at 1.
      apply app_inv_head in Htrace. subst polls.
      split; [exact I |]. intros _. simpl. lia.
Qed.

(** C3, amended: for a container whose inspections never report it
    running, and a start request that is accepted, [StartContainer] returns
    an error once it has enough iterations at hand.  Until then it sends
    inspections under its context of ten seconds only, behind a ticker of
    100 ms: the k-th no earlier than k times 100 ms after the start request
    was answered, and exactly then when every inspection is answered in
    less than 100 ms.  The error is [ErrTimeout] when the deadline comes
    while the loop waits, no inspection having failed, and then
    [StartContainer] returns at or after the deadline; it is the
    start-failed error with the cause of the inspection that failed, the
    last one sent, otherwise. *)
Theorem StartContainer_stopped_container_times_out_or_fails
    (containerID : string) (w : World D) :
  fair fastrand →
  reports_stopped client containerID →
  result (starting_of client containerID w) = inl tt →
  ∃ (enough : nat) (w' : World D) (polls : list Event) (err : error),
    (∀ fuel, (enough ≤ fuel)%nat →
       StartContainer client fastrand fuel containerID w = (Some (Some err), w')) ∧
    trace w' = trace w ++ start_request client containerID w :: polls ∧
    spaced containerID {| created := now w; timeout := 10000 |} 100
      (now w + took (starting_of client containerID w) + 100) polls ∧
    ((err = New ErrTimeout ∧
      now w + 10000 ≤ now w' ∧
      Forall (fun ev => is_failed_inspect ev = false) polls) ∨
     (∃ front sent cause,
        err = start_failed containerID cause ∧
        polls = front ++
          [Request (CallContainerInspect containerID)
             {| created := now w; timeout := 10000 |} sent (Some cause)] ∧
        Forall (fun ev => is_failed_inspect ev = false) front)) ∧
    (prompt client containerID 100 →
     on_the_tick containerID {| created := now w; timeout := 10000 |} 100
       (now w + took (starting_of client containerID w) + 100) polls ∧
     (err = New ErrTimeout →
      now w + 10000 ≤
        now w + took (starting_of client containerID w) + 100 +
          100 * N.of_nat (length polls))).
Proof.
  intros Hfair Hstopped Hstart.
  destruct (StartContainer_returns containerID w Hfair) as (enough & r & w' & Hreturns).
  pose proof (Hreturns enough (Nat.le_refl enough)) as Hrun.
  rewrite StartContainer_unfold, Hstart in Hrun.
  destruct (poll_run containerID (start_ctx w) enough
              (first_ticker client containerID w) _ _ _ eq_refl eq_refl Hrun)
    as (polls & Htrace & Hspaced & _ & Hres).
  pose proof (poll_trace client fastrand enough (start_ctx w) containerID
                (first_ticker client containerID w) (started client containerID w))
    as (oks & Hoks & Hshape).
  simpl in Hshape. rewrite Hrun in Hshape. simpl in Hshape.
  assert (Hclean : Forall (fun ev => is_failed_inspect ev = false) oks).
  { eapply Forall_impl; [exact Hoks |]. by intros ev [t ->]. }
  destruct r as [err |].
  - exists enough, w', polls, err.
    split; [exact Hreturns |].
    split; [rewrite Htrace; simpl; by rewrite <- app_assoc |].
    split; [exact Hspaced |].
    split.
    + destruct Hres as [[-> Hlate] | (front & sent & cause & -> & ->)].
      * left. split; [done |].
        split.
        { unfold Deadline, start_ctx, dockerStartContainerTimeout, Second in Hlate.
          simpl in Hlate. lia. }
        destruct Hshape as [[Htrace' _] | (t & why & _ & Hbad)]; [| discriminate].
        rewrite Htrace in Htrace'. apply app_inv_head in Htrace'. by subst polls.
      * right. exists front, sent, cause. split; [done |]. split; [done |].
        destruct Hshape as [[_ Hnot] | (t & why & Htrace' & _)];
          [by destruct (Hnot cause) |].
        rewrite Htrace in Htrace'. apply app_inv_head in Htrace'.
        apply app_inj_tail in Htrace' as [-> _]. exact Hclean.
    + intros Hprompt.
      destruct (poll_on_the_tick containerID (start_ctx w) Hprompt enough
                  (first_ticker client containerID w) (started client containerID w)
                  w' (Some (Some err)) polls eq_refl eq_refl ltac:(simpl; lia)
                  Hrun Htrace) as [Hticks Hcover].
      split; [exact Hticks |].
      intros ->. specialize (Hcover eq_refl).
      unfold Deadline, start_ctx, dockerStartContainerTimeout, Second in Hcover.
      simpl in Hcover. lia.
  - exfalso.
    destruct Hres as (front & sent & d & state & _ & Hanswer & Hrunning).
    rewrite (Hstopped _ _ _ _ Hanswer) in Hrunning. discriminate.
Qed.

Lemma select_within (tk tk' : Ticker) (ctx : Context) (w w' : World D)
    (chosen : Selected) :
  now w ≤ Deadline ctx →
  select fastrand tk ctx w = (chosen, tk', w') →
  now w' ≤ Deadline ctx.
Proof.
  intros Hnow. unfold select.
  repeat match goal with |- context [if ?b then _ else _] => destruct b end;
    intros [= <- <- <-]; simpl; lia.
Qed.

Lemma poll_within (containerID : string) (ctx : Context) :
  honours_deadlines client →
  ∀ (fuel : nat) (tk : Ticker) (w : World D),
    now w ≤ Deadline ctx →
    now (snd (poll client fastrand fuel ctx containerID tk w)) ≤ Deadline ctx.
Proof.
  intros Hhonours. induction fuel as [| fuel IH]; intros tk w Hnow; [done |].
  simpl. unfold bind, request.
  destruct (select fastrand tk ctx w) as [[chosen tk'] w1] eqn:Hsel.
  pose proof (select_within _ _ _ _ _ _ Hnow Hsel) as Hnow1.
  destruct chosen; [| done].
  destruct (Hhonours ctx (now w1) (daemon w1)) as (_ & _ & _ & _ & _ & Hinspect & _).
  specialize (Hinspect containerID). unfold in_time in Hinspect.
  destruct (result _) as [state |]; [| simpl; lia].
  destruct (Running (State state)); [simpl; lia |].
  apply IH. simpl. lia.
Qed.

(** X4: with a client that gives up on its requests at the deadline and a
    random choice that is fair, [StartContainer] returns, once it has
    enough iterations at hand, and it returns no later than ten seconds
    after it was called, whatever it returns; when it returns [ErrTimeout]
    it returns exactly then. *)
Theorem StartContainer_within_deadline (containerID : string) (w : World D) :
  honours_deadlines client →
  fair fastrand →
  ∃ (enough : nat) (r : option error) (w' : World D),
    (∀ fuel, (enough ≤ fuel)%nat →
       StartContainer client fastrand fuel containerID w = (Some r, w')) ∧
    now w' ≤ now w + 10000 ∧
    (r = Some (New ErrTimeout) → now w' = now w + 10000).
Proof.
  intros Hhonours Hfair.
  destruct (StartContainer_returns containerID w Hfair) as (enough & r & w' & Hreturns).
  pose proof (Hreturns enough (Nat.le_refl enough)) as Hrun.
  exists enough, r, w'. split; [exact Hreturns |].
  assert (Hbound : now w' ≤ now w + 10000).
  { change w' with (snd (Some r, w')). rewrite <- Hrun.
    rewrite StartContainer_unfold.
    destruct (Hhonours (start_ctx w) (now w) (daemon w)) as (_ & _ & _ & _ & Hstart & _).
    assert (Hanswered : now w + took (starting_of client containerID w)
                        ≤ N.max (now w) (now w + 10000))
      by exact (Hstart containerID {| CheckpointID := ""; CheckpointDir := "" |}).
    destruct (result (starting_of client containerID w)) as [[] |].
    - change (now w + 10000) with (Deadline (start_ctx w)).
      apply (poll_within containerID (start_ctx w) Hhonours).
      change (now w + took (starting_of client containerID w) ≤ now w + 10000).
      lia.
    - change (now w + took (starting_of client containerID w) ≤ now w + 10000).
      lia. }
  split; [exact Hbound |].
  intros ->.
  destruct (StartContainer_timeout_is_late enough containerID w w' Hrun) as [_ Hlate].
  lia.
Qed.

End StartingAnyDaemon.

(** ** Connecting and removing *)

Section ConnectingAndRemoving.

Context {D : Type} (client : Client D).

(** X5: [CreateClient] returns a client exactly when it returns no error.
    When the client cannot be made, nothing is sent and the error is
    [ErrCreatingDockerClient]; otherwise one ping is sent, and when it
    fails the error is [ErrConnectingToDocker]; neither error is the
    other. *)
Theorem CreateClient_outcomes (w : World D) :
  let run := CreateClient client w in
  (fst (fst run) = true ↔ snd (fst run) = None) ∧
  (∀ cause, NewClientWithOpts client (daemon w) = Some cause →
     run = ((false, Some (Joined [New ErrCreatingDockerClient; Cause cause])), w) ∧
     errors_Is (Joined [New ErrCreatingDockerClient; Cause cause])
       ErrCreatingDockerClient = true ∧
     errors_Is (Joined [New ErrCreatingDockerClient; Cause cause])
       ErrConnectingToDocker = false) ∧
  (NewClientWithOpts client (daemon w) = None →
     trace (snd run) =
       trace w ++
         [Request CallPing {| created := now w; timeout := 10000 |} (now w)
            (match result (ping_of client w) with
             | inl _ => None | inr e => Some e end)] ∧
     (result (ping_of client w) = inl tt → fst run = (true, None)) ∧
     (∀ cause, result (ping_of client w) = inr cause →
        fst run = (false, Some (Joined [New ErrConnectingToDocker; Cause cause])) ∧
        errors_Is (Joined [New ErrConnectingToDocker; Cause cause])
          ErrConnectingToDocker = true ∧
        errors_Is (Joined [New ErrConnectingToDocker; Cause cause])
          ErrCreatingDockerClient = false)).
Proof.
  intros run. subst run. unfold CreateClient, ping_of.
  destruct (NewClientWithOpts client (daemon w)) as [refused |].
  - split; [split; discriminate |]. split; [| discriminate].
    intros cause [= <-]. done.
  - unfold bind, WithTimeout, request. simpl.
    destruct (result _) as [[] | failed]; simpl.
    + split; [done |]. split; [discriminate |]. intros _.
      split; [done |]. split; [done | discriminate].
    + split; [split; discriminate |]. split; [discriminate |]. intros _.
      split; [done |]. split; [discriminate |].
      intros cause [= <-]. done.
Qed.

(** X6: [RemoveContainer] and [RemoveImage] each send one request and no
    other -- the container is removed by force, with its volumes, the image
    with the default options -- and return what the daemon answered: nil
    when it removed, and otherwise the daemon's own error, with its
    message, which is none of the package's errors. *)
Theorem removals_pass_errors_through (containerID dockerImage : string)
    (w : World D) :
  trace (snd (RemoveContainer client containerID w)) =
    trace w ++
      [Request (CallContainerRemove containerID
                  {| RemoveVolumes := true; Force := true |})
         {| created := now w; timeout := 10000 |} (now w)
         (match result (removing_container_of client containerID w) with
          | inl _ => None | inr e => Some e end)] ∧
  (fst (RemoveContainer client containerID w) = None ↔
   result (removing_container_of client containerID w) = inl tt) ∧
  (∀ err, fst (RemoveContainer client containerID w) = Some err →
     result (removing_container_of client containerID w) = inr (Error err) ∧
     ∀ s, errors_Is err s = false) ∧
  trace (snd (RemoveImage client dockerImage w)) =
    trace w ++
      [Request (CallImageRemove dockerImage
                  {| ImageForce := false; PruneChildren := false |})
         {| created := now w; timeout := 10000 |} (now w)
         (match result (removing_image_of client dockerImage w) with
          | inl _ => None | inr e => Some e end)] ∧
  (fst (RemoveImage client dockerImage w) = None ↔
   result (removing_image_of client dockerImage w) = inl tt) ∧
  (∀ err, fst (RemoveImage client dockerImage w) = Some err →
     result (removing_image_of client dockerImage w) = inr (Error err) ∧
     ∀ s, errors_Is err s = false).
Proof.
  unfold RemoveContainer, RemoveImage, removing_container_of, removing_image_of,
    bind, WithTimeout, request. simpl.
  split; [by destruct (result _) |].
  split; [| split; [| split; [| split]]].
  - destruct (result _) as [[] |]; simpl; split; done.
  - intros err. destruct (result _) as [[] | cause]; simpl; [discriminate |].
    intros [= <-]. done.
  - by destruct (result _).
  - destruct (result _) as [[] |]; simpl; split; done.
  - intros err. destruct (result _) as [[] | cause]; simpl; [discriminate |].
    intros [= <-]. done.
Qed.

(** Closes a goal on the clock after one request under a context of ten
    seconds made at [w], from the fact that answers are in time. *)
Ltac answered_in_time Hhonours w :=
  match goal with
  | |- context [result ?r] =>
      let Ht := fresh "Ht" in
      assert (Ht : in_time {| created := now w; timeout := 10000 |} (now w) r)
        by apply Hhonours;
      unfold in_time, Deadline in Ht; cbn [created timeout] in Ht;
      revert Ht; generalize r; intros ? Ht;
      destruct (result _); simpl; lia
  end.

(** X7: with a client that gives up on its requests at the deadline, the
    operations that send one request are over no later than ten seconds
    after they were called, and inside [PullImage] the pull request is
    sent no later than ten seconds and answered no later than seventy
    seconds after [PullImage] was called. *)
Theorem requests_answered_within_timeouts
    (NewPort : string → string → Port + Foreign)
    (range_order : gmap string string → list (string * string))
    (dockerImage containerName containerID : string)
    (ports : gmap string string) (w : World D) :
  honours_deadlines client →
  now (snd (CreateClient client w)) ≤ now w + 10000 ∧
  now (snd (VerifyHaveImage client dockerImage w)) ≤ now w + 10000 ∧
  now (snd (CreateContainer client NewPort range_order
              dockerImage containerName ports w)) ≤ now w + 10000 ∧
  now (snd (RemoveContainer client containerID w)) ≤ now w + 10000 ∧
  now (snd (RemoveImage client dockerImage w)) ≤ now w + 10000 ∧
  (let w1 := snd (VerifyHaveImage client dockerImage w) in
   now w1 + took (pulling_of client dockerImage w1) ≤ now w + 70000).
Proof.
  intros Hhonours.
  assert (Hverify : now (snd (VerifyHaveImage client dockerImage w)) ≤ now w + 10000).
  { rewrite VerifyHaveImage_world. simpl.
    destruct (Hhonours (verify_ctx w) (now w) (daemon w)) as (_ & Hlist & _).
    specialize (Hlist dockerImage).
    change (now w + took (listing_of client dockerImage w)
            ≤ N.max (now w) (now w + 10000)) in Hlist. lia. }
  repeat apply conj.
  - unfold CreateClient.
    destruct (NewClientWithOpts client (daemon w)); [simpl; lia |].
    unfold bind, WithTimeout, request. answered_in_time Hhonours w.
  - exact Hverify.
  - unfold CreateContainer.
    destruct (range_ports NewPort (range_order ports) ∅) as [pm |]; [| simpl; lia].
    unfold bind, WithTimeout, request. answered_in_time Hhonours w.
  - unfold RemoveContainer, bind, WithTimeout, request.
    answered_in_time Hhonours w.
  - unfold RemoveImage, bind, WithTimeout, request.
    answered_in_time Hhonours w.
  - intros w1.
    destruct (Hhonours (pull_ctx w1) (now w1) (daemon w1)) as (_ & _ & Hpull & _).
    specialize (Hpull dockerImage {| All := false |}).
    change (now w1 + took (pulling_of client dockerImage w1)
            ≤ N.max (now w1) (now w1 + 60000)) in Hpull.
    subst w1. lia.
Qed.

End ConnectingAndRemoving.

(** ** Containers: what the result tells, and the order of the visit *)

Section PortMapOrders.

Context (NewPort : string → string → Port + Foreign).

(** A loop that fails reports the parse error of an entry it visited. *)
Lemma range_ports_failure_is_an_entry (entries : list (string * string))
    (portmap : gmap string (list PortBinding)) (cause : Foreign) :
  range_ports NewPort entries portmap = inr cause →
  ∃ h c, (h, c) ∈ entries ∧ NewPort "tcp" c = inr cause.
Proof.
  revert portmap.
  induction entries as [| [h0 c0] rest IH]; intros portmap; simpl; [discriminate |].
  destruct (NewPort "tcp" c0) as [p0 | e] eqn:Hp0.
  - intros Hrun. destruct (IH _ Hrun) as (h & c & Hin & Hbad).
    exists h, c. split; [by right | done].
  - intros [= <-]. exists h0, c0. split; [by left | done].
Qed.

(** A loop that succeeds has parsed every port it visited. *)
Lemma range_ports_success_parsed_all (entries : list (string * string))
    (portmap pm : gmap string (list PortBinding)) :
  range_ports NewPort entries portmap = inl pm →
  ∀ h c, (h, c) ∈ entries → ∃ p, NewPort "tcp" c = inl p.
Proof.
  revert portmap.
  induction entries as [| [h0 c0] rest IH]; intros portmap; simpl.
  - intros _ h c Hin. by apply elem_of_nil in Hin.
  - destruct (NewPort "tcp" c0) as [p0 | e] eqn:Hp0; [| discriminate].
    intros Hrun h c Hin. apply elem_of_cons in Hin as [[= -> ->] | Hin].
    + by exists p0.
    + by apply (IH _ Hrun h c).
Qed.

End PortMapOrders.

Section ContainerResults.

Context {D : Type} (client : Client D).
Context (NewPort : string → string → Port + Foreign).

(** With distinct container ports, the entry visited last for a port is
    the only entry with that port, in any order of the visit. *)
Lemma last_host_of_distinct (ports : gmap string string)
    (entries : list (string * string)) (p : Port) (h c : string) :
  distinct_container_ports NewPort ports →
  (∀ h c, (h, c) ∈ entries ↔ ports !! h = Some c) →
  ports !! h = Some c →
  NewPort "tcp" c = inl p →
  last_host NewPort p entries = Some h.
Proof.
  intros Hdistinct Hentries Hentry Hp.
  destruct (last_host NewPort p entries) as [h' |] eqn:Hlast.
  - destruct (last_host_Some NewPort _ _ _ Hlast)
      as (before & c' & after & -> & Hp' & _).
    f_equal. apply (Hdistinct h' c' h c p); [| done..].
    apply Hentries, elem_of_app. right. by left.
  - exfalso. apply (last_host_None NewPort p entries h c); [| done..].
    by apply Hentries.
Qed.

(** X8: when every container port of the map parses and no two entries
    have the same container port, [CreateContainer] does the same in every
    order in which the map can be visited: the same request is sent and the
    same is returned. *)
Theorem CreateContainer_order_independent
    (order1 order2 : gmap string string → list (string * string))
    (dockerImage containerName : string) (ports : gmap string string) (w : World D) :
  (∀ m, order1 m ≡ₚ map_to_list m) →
  (∀ m, order2 m ≡ₚ map_to_list m) →
  all_ports_valid NewPort ports →
  distinct_container_ports NewPort ports →
  CreateContainer client NewPort order1 dockerImage containerName ports w =
  CreateContainer client NewPort order2 dockerImage containerName ports w.
Proof.
  intros Hvisit1 Hvisit2 Hvalid Hdistinct.
  assert (Hentries1 : ∀ h c, (h, c) ∈ order1 ports ↔ ports !! h = Some c).
  { intros h c. rewrite (Hvisit1 ports). apply elem_of_map_to_list. }
  assert (Hentries2 : ∀ h c, (h, c) ∈ order2 ports ↔ ports !! h = Some c).
  { intros h c. rewrite (Hvisit2 ports). apply elem_of_map_to_list. }
  destruct (range_ports_valid NewPort (order1 ports) ∅) as [pm1 Hpm1].
  { intros h c Hin. apply Hentries1 in Hin. eauto. }
  destruct (range_ports_valid NewPort (order2 ports) ∅) as [pm2 Hpm2].
  { intros h c Hin. apply Hentries2 in Hin. eauto. }
  assert (Hsame : pm1 = pm2).
  { apply map_eq. intros p.
    etrans; [exact (range_ports_lookup NewPort _ _ _ p Hpm1) |].
    etrans; [| symmetry; exact (range_ports_lookup NewPort _ _ _ p Hpm2)].
    destruct (last_host NewPort p (order1 ports)) as [h1 |] eqn:Hlast1.
    - destruct (last_host_Some NewPort _ _ _ Hlast1)
        as (before & c1 & after & Horder & Hp1 & _).
      assert (Hentry : ports !! h1 = Some c1).
      { apply Hentries1. rewrite Horder. apply elem_of_app. right. by left. }
      by rewrite (last_host_of_distinct ports (order2 ports) p h1 c1).
    - destruct (last_host NewPort p (order2 ports)) as [h2 |] eqn:Hlast2; [| done].
      destruct (last_host_Some NewPort _ _ _ Hlast2)
        as (before & c2 & after & Horder & Hp2 & _).
      assert (Hentry : ports !! h2 = Some c2).
      { apply Hentries2. rewrite Horder. apply elem_of_app. right. by left. }
      by rewrite (last_host_of_distinct ports (order1 ports) p h2 c2) in Hlast1. }
  subst pm2.
  rewrite (CreateContainer_sends client NewPort order1 _ _ _ pm1 w Hpm1).
  rewrite (CreateContainer_sends client NewPort order2 _ _ _ pm1 w Hpm2).
  reflexivity.
Qed.

Context (range_order : gmap string string → list (string * string)).

(** [range] visits every entry of the map once. *)
Hypothesis range_visits_each_entry_once :
  ∀ m, range_order m ≡ₚ map_to_list m.

(** X9: what the result of [CreateContainer] tells.  An error comes with
    the empty ID.  It is [ErrPortMap] only when nothing was sent and some
    container port of the map does not parse, and then it wraps the parse
    error of such a port; it is [ErrCreatingContainer] only when every port
    parses and the one create request that was sent failed, and then it
    wraps the daemon's error.  Without error, every port parses, one create
    request was sent, and the ID is the one the daemon answered. *)
Theorem CreateContainer_result_tells (dockerImage containerName : string)
    (ports : gmap string string) (w : World D) :
  let run := CreateContainer client NewPort range_order
               dockerImage containerName ports w in
  (∀ err, snd (fst run) = Some err →
     fst (fst run) = "" ∧
     ((snd run = w ∧
       errors_Is err ErrPortMap = true ∧
       errors_Is err ErrCreatingContainer = false ∧
       ∃ h c cause,
         ports !! h = Some c ∧ NewPort "tcp" c = inr cause ∧
         err = Joined [New ErrPortMap; Cause cause]) ∨
      (all_ports_valid NewPort ports ∧
       errors_Is err ErrCreatingContainer = true ∧
       errors_Is err ErrPortMap = false ∧
       ∃ pm cause,
         trace (snd run) =
           trace w ++ [create_request client dockerImage containerName pm w] ∧
         result (creating_of client dockerImage containerName pm w) = inr cause ∧
         err = Joined [New ErrCreatingContainer; Cause cause]))) ∧
  (snd (fst run) = None →
     all_ports_valid NewPort ports ∧
     ∃ pm container,
       trace (snd run) =
         trace w ++ [create_request client dockerImage containerName pm w] ∧
       result (creating_of client dockerImage containerName pm w) = inl container ∧
       fst (fst run) = ID container).
Proof.
  intros run. subst run.
  destruct (range_ports NewPort (range_order ports) ∅) as [pm | cause] eqn:Hpm.
  - assert (Hvalid : all_ports_valid NewPort ports).
    { intros h c Hentry.
      apply (range_ports_success_parsed_all NewPort _ _ _ Hpm h c).
      rewrite (range_visits_each_entry_once ports). by apply elem_of_map_to_list. }
    rewrite (CreateContainer_sends client NewPort range_order _ _ _ pm w Hpm).
    destruct (result (creating_of client dockerImage containerName pm w))
      as [container | cause] eqn:Hcreate; simpl.
    + split; [discriminate |]. intros _. split; [done |].
      exists pm, container. done.
    + split; [| discriminate]. intros err [= <-]. split; [done |]. right.
      split; [done |]. split; [done |]. split; [done |].
      exists pm, cause. done.
  - destruct (range_ports_failure_is_an_entry NewPort _ _ _ Hpm)
      as (h & c & Hin & Hbad).
    rewrite (range_visits_each_entry_once ports) in Hin.
    apply elem_of_map_to_list in Hin.
    unfold CreateContainer. rewrite Hpm. simpl.
    split; [| discriminate]. intros err [= <-]. split; [done |]. left.
    split; [done |]. split; [done |]. split; [done |].
    exists h, c, cause. done.
Qed.

End ContainerResults.

(** ** Images: what [PullImage] sends and returns *)

Section PullResults.

Context {D : Type} (client : Client D).

Lemma reads_are_no_requests (reads : list Event) :
  Forall (fun ev => event_ctx ev = None) reads →
  filter (fun ev => is_request ev = true) reads = [].
Proof.
  induction 1 as [| ev reads Hev _ IH]; [done |].
  rewrite filter_cons_False; [done |]. by destruct ev.
Qed.

(** X10: [PullImage] sends the listing once, then the pull once when the
    check returned an error and not at all otherwise, and no other
    request; an error it returns is [ErrPullingImage] or
    [ErrReadingPulledImage], not both, and is never the error of the
    check. *)
Theorem PullImage_requests_and_errors (dockerImage : string) (w : World D) :
  let run := PullImage client dockerImage w in
  let w1 := snd (VerifyHaveImage client dockerImage w) in
  (∃ listed,
     filter (fun ev => is_request ev = true)
       (drop (length (trace w)) (trace (snd run))) =
       Request (CallImageList dockerImage) (verify_ctx w) (now w) listed ::
       match fst (VerifyHaveImage client dockerImage w) with
       | None => []
       | Some _ => [pull_request client dockerImage w1]
       end) ∧
  (∀ err, fst run = Some err →
     errors_Is err ErrPullingImage = negb (errors_Is err ErrReadingPulledImage) ∧
     errors_Is err ErrListingImages = false ∧
     errors_Is err ErrImageNotPresent = false).
Proof.
  intros run w1. subst run w1.
  destruct (fst (VerifyHaveImage client dockerImage w)) as [e |] eqn:Hverify.
  - pose proof (PullImage_absent client dockerImage w e Hverify) as Hrun.
    simpl in Hrun. rewrite VerifyHaveImage_world in *. simpl in *.
    destruct (result (pulling_of client dockerImage _)) as [body | cause].
    + destruct Hrun as (reads & Hrun & _ & _ & Hreads). rewrite Hrun. simpl.
      split.
      * eexists. rewrite <- app_assoc, drop_app_length. simpl.
        rewrite !filter_cons_True by done.
        by rewrite (reads_are_no_requests reads Hreads).
      * intros err. destruct (ending body); [| discriminate].
        intros [= <-]. done.
    + rewrite Hrun. simpl. split.
      * eexists. rewrite <- app_assoc, drop_app_length. simpl.
        by rewrite !filter_cons_True by done.
      * intros err [= <-]. done.
  - assert (Hrun : PullImage client dockerImage w =
                   (None, snd (VerifyHaveImage client dockerImage w))).
    { unfold PullImage, bind.
      destruct (VerifyHaveImage client dockerImage w) as [err w1].
      simpl in Hverify. by subst err. }
    rewrite Hrun. simpl. rewrite VerifyHaveImage_world. simpl.
    split; [| discriminate].
    eexists. rewrite drop_app_length. simpl. by rewrite filter_cons_True by done.
Qed.

End PullResults.

(** ** Clients that keep the contract of the context *)

Section ContextContract.

Context {D : Type} (client : Client D).

Lemma cut_in_time {A : Type} (ctx : Context) (t : N) (d : D) (r : Reply D A) :
  in_time ctx t (cut ctx t d r).
Proof.
  unfold in_time, cut.
  destruct (N.leb_spec (Deadline ctx) t); [simpl; lia |].
  destruct (N.ltb_spec (Deadline ctx) (t + took r)); simpl; lia.
Qed.

(** Whatever the client, the client made to keep the contract gives up on
    its requests at the deadline. *)
Lemma honouring_honours_deadlines : honours_deadlines (honouring client).
Proof.
  intros ctx t d. repeat split; intros; apply cut_in_time.
Qed.

(** Keeping the contract does not make a container run. *)
Lemma honouring_reports_stopped (containerID : string) :
  reports_stopped client containerID →
  reports_stopped (honouring client) containerID.
Proof.
  intros Hstopped ctx t d state. simpl. unfold cut.
  destruct (Deadline ctx <=? t); [discriminate |].
  destruct (Deadline ctx <? _); [discriminate |].
  apply Hstopped.
Qed.

End ContextContract.

(** * The further properties at work on the scripted daemon *)

Section FurtherChecks.

Context (NewPort : string → string → Port + Foreign).

Lemma distinct_container_ports_checked (ports : gmap string string) :
  forallb (fun e1 =>
    forallb (fun e2 =>
      match NewPort "tcp" e1.2, NewPort "tcp" e2.2 with
      | inl p1, inl p2 =>
          if decide (p1 = p2) then bool_decide (e1.1 = e2.1) else true
      | _, _ => true
      end) (map_to_list ports)) (map_to_list ports) = true →
  distinct_container_ports NewPort ports.
Proof.
  intros Hcheck h1 c1 h2 c2 p H1 H2 Hp1 Hp2.
  rewrite forallb_forall in Hcheck.
  apply elem_of_map_to_list, list_elem_of_In in H1, H2.
  specialize (Hcheck _ H1). rewrite forallb_forall in Hcheck.
  specialize (Hcheck _ H2). simpl in Hcheck.
  rewrite Hp1, Hp2, decide_True in Hcheck by done.
  by apply bool_decide_eq_true in Hcheck.
Qed.

End FurtherChecks.

Module FurtherRuns.

Import Fixtures.

Lemma at_once_honours_deadlines (s : Script) :
  honours_deadlines (scripted (at_once s)).
Proof.
  intros ctx t d. unfold in_time. simpl.
  repeat split; intros; lia.
Defined.

Lemma reversed_visits_once (m : gmap string string) :
  reverse (map_to_list m) ≡ₚ map_to_list m.
Proof. apply reverse_Permutation. Defined.

Lemma two_hosts_two_ports_valid : all_ports_valid NewPort two_hosts_two_ports.
Proof. apply all_ports_valid_checked. vm_compute. reflexivity. Defined.

Lemma two_hosts_two_ports_distinct :
  distinct_container_ports NewPort two_hosts_two_ports.
Proof. apply distinct_container_ports_checked. vm_compute. reflexivity. Defined.

Lemma StartContainer_error_kinds_witness :
  StartContainer (scripted stuck) (fun _ => true) 200 "c1" boot =
    (Some (Some (New ErrTimeout)),
     snd (StartContainer (scripted stuck) (fun _ => true) 200 "c1" boot)) ∧
  now boot + 10000 ≤
    now (snd (StartContainer (scripted stuck) (fun _ => true) 200 "c1" boot)).
Proof.
  assert (Hrun : StartContainer (scripted stuck) (fun _ => true) 200 "c1" boot =
    (Some (Some (New ErrTimeout)),
     snd (StartContainer (scripted stuck) (fun _ => true) 200 "c1" boot)))
    by (vm_compute; reflexivity).
  split; [exact Hrun |].
  destruct (StartContainer_error_kinds (scripted stuck) (fun _ => true) 200 "c1"
              boot _ _ Hrun)
    as [(_ & _ & Hlate) | (cause & front & call & sent & Herr & _)];
    [exact Hlate | discriminate Herr].
Defined.

Lemma StartContainer_success_needs_running_inspection_witness :
  StartContainer (scripted healthy) (fun _ => true) 10 "c1" boot =
    (Some None, snd (StartContainer (scripted healthy) (fun _ => true) 10 "c1" boot)) ∧
  result (starting_of (scripted healthy) "c1" boot) = inl tt.
Proof.
  assert (Hrun : StartContainer (scripted healthy) (fun _ => true) 10 "c1" boot =
    (Some None, snd (StartContainer (scripted healthy) (fun _ => true) 10 "c1" boot)))
    by (vm_compute; reflexivity).
  split; [exact Hrun |].
  exact (proj1 (StartContainer_success_needs_running_inspection (scripted healthy)
                  (fun _ => true) 10 "c1" boot _ Hrun)).
Defined.

Lemma late_start_reports_stopped : reports_stopped late_start "c1".
Proof. intros ctx t d state [= <-]. reflexivity. Defined.

Lemma StartContainer_within_deadline_witness :
  honours_deadlines (honouring late_start) ∧
  fair (fun _ => true) ∧
  ∃ (enough : nat) (r : option error),
    fst (StartContainer (honouring late_start) (fun _ => true) enough "c1" boot) =
      Some r.
Proof.
  split; [exact (honouring_honours_deadlines late_start) |].
  split; [exact Runs.always_done_is_fair |].
  destruct (StartContainer_within_deadline (honouring late_start) (fun _ => true)
              "c1" boot (honouring_honours_deadlines late_start)
              Runs.always_done_is_fair)
    as (enough & r & w' & Hrun & _).
  exists enough, r. rewrite (Hrun enough (Nat.le_refl enough)). reflexivity.
Defined.

Lemma StartContainer_stopped_container_times_out_or_fails_witness :
  fair (fun _ => true) ∧
  reports_stopped (honouring (scripted stuck)) "c1" ∧
  result (starting_of (honouring (scripted stuck)) "c1" boot) = inl tt ∧
  ∃ (enough : nat) (err : error),
    fst (StartContainer (honouring (scripted stuck)) (fun _ => true) enough "c1" boot) =
      Some (Some err).
Proof.
  assert (Hstopped : reports_stopped (honouring (scripted stuck)) "c1").
  { apply honouring_reports_stopped. intros ctx t d state [= <-]. reflexivity. }
  split; [exact Runs.always_done_is_fair |].
  split; [exact Hstopped |].
  split; [reflexivity |].
  destruct (StartContainer_stopped_container_times_out_or_fails
              (honouring (scripted stuck)) (fun _ => true) "c1" boot
              Runs.always_done_is_fair Hstopped eq_refl)
    as (enough & w' & polls & err & Hrun & _).
  exists enough, err. rewrite (Hrun enough (Nat.le_refl enough)). reflexivity.
Defined.

(** C3, as stated, fails.  With a client that keeps the contract of the
    context, a start request answered after 95 ms and inspections answered
    after 10 ms, the container never reports running, the inspection sent
    at 9995 ms is cut by the deadline, and [StartContainer] returns the
    start-failed error, which is not [ErrTimeout], whatever the random
    choice.  And with answers that take 150 ms the inspections are sent
    150 ms apart, not 100 ms. *)
Lemma StartContainer_stopped_container_counterexample :
  reports_stopped (honouring late_start) "c1" ∧
  result (starting_of (honouring late_start) "c1" boot) = inl tt ∧
  fst (StartContainer (honouring late_start) (fun _ => true) 200 "c1" boot) =
    Some (Some (start_failed "c1" "context deadline exceeded")) ∧
  fst (StartContainer (honouring late_start) (fun _ => false) 200 "c1" boot) =
    Some (Some (start_failed "c1" "context deadline exceeded")) ∧
  last (trace (snd (StartContainer (honouring late_start) (fun _ => true) 200 "c1" boot))) =
    Some (Request (CallContainerInspect "c1") (start_ctx boot) 9995
            (Some "context deadline exceeded")) ∧
  now (snd (StartContainer (honouring late_start) (fun _ => true) 200 "c1" boot)) = 10000 ∧
  errors_Is (start_failed "c1" "context deadline exceeded") ErrTimeout = false ∧
  reports_stopped (honouring (scripted sluggish)) "c1" ∧
  ∃ rest : list Event,
    trace (snd (StartContainer (honouring (scripted sluggish)) (fun _ => true)
                  200 "c1" boot)) =
      start_request (honouring (scripted sluggish)) "c1" boot ::
      Request (CallContainerInspect "c1") (start_ctx boot) 250 None ::
      Request (CallContainerInspect "c1") (start_ctx boot) 400 None ::
      Request (CallContainerInspect "c1") (start_ctx boot) 550 None :: rest.
Proof.
  split; [exact (honouring_reports_stopped late_start "c1" late_start_reports_stopped) |].
  split; [reflexivity |].
  split; [vm_compute; reflexivity |].
  split; [vm_compute; reflexivity |].
  split; [vm_compute; reflexivity |].
  split; [vm_compute; reflexivity |].
  split; [reflexivity |].
  split.
  { apply honouring_reports_stopped. intros ctx t d state [= <-]. reflexivity. }
  eexists. vm_compute. reflexivity.
Qed.

Lemma requests_answered_within_timeouts_witness :
  honours_deadlines (scripted (at_once absent)) ∧
  now (snd (VerifyHaveImage (scripted (at_once absent))
              "hashicorp/http-echo:latest" boot)) ≤ now boot + 10000.
Proof.
  split; [exact (at_once_honours_deadlines absent) |].
  exact (proj1 (proj2 (requests_answered_within_timeouts (scripted (at_once absent))
                         NewPort map_to_list "hashicorp/http-echo:latest" "test-1" "c1"
                         two_hosts_two_ports boot (at_once_honours_deadlines absent)))).
Defined.

Lemma CreateContainer_order_independent_witness :
  all_ports_valid NewPort two_hosts_two_ports ∧
  distinct_container_ports NewPort two_hosts_two_ports ∧
  CreateContainer (scripted healthy) NewPort map_to_list
    "hashicorp/http-echo:latest" "test-1" two_hosts_two_ports boot =
  CreateContainer (scripted healthy) NewPort (fun m => reverse (map_to_list m))
    "hashicorp/http-echo:latest" "test-1" two_hosts_two_ports boot.
Proof.
  split; [exact two_hosts_two_ports_valid |].
  split; [exact two_hosts_two_ports_distinct |].
  exact (CreateContainer_order_independent (scripted healthy) NewPort
           map_to_list (fun m => reverse (map_to_list m))
           "hashicorp/http-echo:latest" "test-1" two_hosts_two_ports boot
           Runs.map_to_list_visits_once reversed_visits_once
           two_hosts_two_ports_valid two_hosts_two_ports_distinct).
Defined.

Lemma CreateContainer_result_tells_witness :
  snd (fst (CreateContainer (scripted refusing_create) NewPort map_to_list
              "hashicorp/http-echo:latest" "test-1" two_hosts_two_ports boot)) =
    Some (Joined [New ErrCreatingContainer;
                  Cause "Conflict. The container name is already in use"]) ∧
  fst (fst (CreateContainer (scripted refusing_create) NewPort map_to_list
              "hashicorp/http-echo:latest" "test-1" two_hosts_two_ports boot)) = "".
Proof.
  assert (Herr : snd (fst (CreateContainer (scripted refusing_create) NewPort map_to_list
              "hashicorp/http-echo:latest" "test-1" two_hosts_two_ports boot)) =
    Some (Joined [New ErrCreatingContainer;
                  Cause "Conflict. The container name is already in use"]))
    by (vm_compute; reflexivity).
  split; [exact Herr |].
  exact (proj1 (proj1 (CreateContainer_result_tells (scripted refusing_create) NewPort
                         map_to_list Runs.map_to_list_visits_once
                         "hashicorp/http-echo:latest" "test-1" two_hosts_two_ports boot)
                  _ Herr)).
Defined.

(** The two orders of the visit do differ on this map. *)
Example the_two_orders_differ :
  map_to_list two_hosts_two_ports ≠ reverse (map_to_list two_hosts_two_ports).
Proof. vm_compute. discriminate. Qed.

Example refused_start_sends_no_inspection :
  StartContainer (scripted refusing_start) (fun _ => true) 0 "c1" boot =
    (Some (Some (start_failed "c1" "No such container: c1")),
     started (scripted refusing_start) "c1" boot).
Proof. reflexivity. Qed.

End FurtherRuns.
